(** * SuffixArray.cpp: the suffix-array phrase-table index over an ordered
      key-value store

    A shallow embedding of
    [src/decoder-phrasebased/src/native/suffixarray-phrasetable/suffixarray/SuffixArray.cpp]:
    the merge operator registered with the key-value engine, the
    constructor, [ForceCompaction], [PutBatch] with its two prefix loops,
    [CountOccurrences] and [IndexIterator::Next].

    Conventions.
    - [std::string] and [rocksdb::Slice] are [string] (a string of 8-bit
      characters); a nullable [const Slice *] is an [option string].
    - [int64_t] is [Z] with the two's-complement wrap-around written out
      ([int64_wrap]); [size_t] positions and lengths that index a sentence
      are [nat]; [uint8_t prefixLength] is a [nat].
    - [unordered_map<string, T>] is [gmap string T]; [m[k]] on an absent key
      default-constructs the value, which is [default] on the lookup.
    - A member function that may throw and may assign members is a function
      [SuffixArray -> outcome A * SuffixArray]; a dynamic exception
      specification [throw(...)] is applied to the outcome of the body.
    - What the file includes but does not define ([dbkv.h], [PostingList],
      [PrefixCursor], [CorporaStorage], [GarbageCollector], RocksDB, the
      file system) is an interface: a class whose fields are the names the
      source uses. *)

From Stdlib Require Import ZArith Lia Ascii String List Permutation.
From stdpp Require Import base option list gmap strings sorting.

Local Open Scope Z_scope.

(** ** Machine integers *)

(** [int64_t], two's complement: the value of [z] after a 64-bit wrap. *)
Definition int64_wrap (z : Z) : Z := (z + 2 ^ 63) mod 2 ^ 64 - 2 ^ 63.

Definition int64_min : Z := - 2 ^ 63.
Definition int64_max : Z := 2 ^ 63 - 1.

Definition in_int64 (z : Z) : Prop := int64_min <= z <= int64_max.

(** [a + b] on two [int64_t]. *)
Definition int64_add (a b : Z) : Z := int64_wrap (a + b).

(** [(size_t) z], with a 64-bit [size_t]. *)
Definition to_size_t (z : Z) : Z := z mod 2 ^ 64.

(** ** Basic types of the translation engine *)

Definition wid_t := Z.
Definition domain_t := Z.
Definition length_t := Z.
Definition sentence_t := list wid_t.
Definition alignment_t := list (length_t * length_t).

(** ** Errors *)

Inductive exception : Type :=
| index_exception (what : string)
| storage_exception (what : string)
| invalid_argument (what : string).

(** How a call ends: it returns, an exception leaves it and reaches the
    caller, or the program terminates: an exception [e] was about to leave a
    function whose dynamic exception specification does not list it, and
    [std::unexpected()] was called, which by default calls
    [std::terminate()]. *)
Inductive outcome (A : Type) : Type :=
| Returned (a : A)
| Thrown (e : exception)
| Terminated (e : exception).
Arguments Returned {A} a.
Arguments Thrown {A} e.
Arguments Terminated {A} e.

(** A dynamic exception specification [throw(...)] on a function: an
    exception it lists leaves the function, any other one ends the program. *)
Definition unexpected_unless {A} (listed : exception -> bool) (r : outcome A) : outcome A :=
  match r with
  | Thrown e => if listed e then Thrown e else Terminated e
  | _ => r
  end.

(** [throw(index_exception)] and [throw(index_exception, storage_exception)]. *)
Definition only_index_exception (e : exception) : bool :=
  match e with index_exception _ => true | _ => false end.

Definition index_or_storage_exception (e : exception) : bool :=
  match e with index_exception _ | storage_exception _ => true | invalid_argument _ => false end.

(** [rocksdb::Status], as far as the source looks at it. *)
Record Status : Type := { ok : bool; ToString : string }.

(** ** State and exceptions of a member function *)

Definition M (S A : Type) : Type := S -> outcome A * S.

Definition ret {S A} (a : A) : M S A := fun s => (Returned a, s).
Definition throw {S A} (e : exception) : M S A := fun s => (Thrown e, s).
Definition bind {S A B} (c : M S A) (k : A -> M S B) : M S B :=
  fun s => match c s with
           | (Returned a, s') => k a s'
           | (Thrown e, s') => (Thrown e, s')
           | (Terminated e, s') => (Terminated e, s')
           end.
Definition throw_spec {S A} (listed : exception -> bool) (c : M S A) : M S A :=
  fun s => let '(r, s') := c s in (unexpected_unless listed r, s').
Definition gets {S A} (f : S -> A) : M S A := fun s => (Returned (f s), s).
Definition modify {S} (f : S -> S) : M S unit := fun s => (Returned tt, f s).

Declare Scope cpp_scope.
Delimit Scope cpp_scope with cpp.
Notation "x <- c ;; k" := (bind c (fun x => k))
  (at level 100, c at next level, right associativity) : cpp_scope.
Notation "c ;;; k" := (bind c (fun _ => k))
  (at level 100, right associativity) : cpp_scope.

(** ** The key and value codec of [dbkv.h] *)

(** [dbkv.h] and [mmt/sentence.h] are included by the source and not part of
    it. Every name the source takes from them is a field here. Out
    parameters are passed in and returned. *)
Class DbKv : Type := {
  (** width in bits of [length_t], the type [(length_t) start] casts to *)
  length_t_bits : Z;
  (** [enum KeyType], stored in the first byte of a key *)
  kStreamsKeyType : ascii;
  kStorageManifestKeyType : ascii;
  kSourcePrefixKeyType : ascii;
  kTargetCountKeyType : ascii;
  kDomainDeletionKeyType : ascii;
  MakeEmptyKey : ascii -> string;
  MakePrefixKey : nat -> domain_t -> sentence_t -> nat -> nat -> string;
  MakeCountKey : nat -> sentence_t -> nat -> nat -> string;
  MakeDomainDeletionKey : domain_t -> string;
  GetKeyTypeFromKey : string -> nat -> ascii;
  GetDomainFromKey : string -> nat -> domain_t;
  GetWordsFromKey : string -> nat -> list wid_t -> list wid_t;
  SerializeCount : Z -> string;
  DeserializeCount : string -> Z;
  SerializeStreams : list Z -> string;
  DeserializeStreams : string -> list Z -> list Z;
  (** one posting record of a [PostingList], and one decoded position *)
  location_t : Type;
  kPostingRecordWidth : nat;
  SerializePosting : domain_t -> Z -> length_t -> string;
  DeserializePosting : string -> location_t
}.

(** [(length_t) start] for a [size_t start]. *)
Definition to_length_t `{DbKv} (start : nat) : length_t :=
  Z.of_nat start mod 2 ^ length_t_bits.

(** [key.data_[0]]. The slices the engine passes are backed by a
    [std::string], whose buffer ends in a zero byte: that is what an empty
    key shows. *)
Definition first_byte (key : string) : ascii :=
  match key with
  | String c _ => c
  | EmptyString => zero
  end.

(** ** PostingList *)

Module PostingList.
Section PostingList.
Context `{DbKv}.

(** Modelled from the spec: the [PostingList] class is not in the source.
    A posting is a triple (domain, corpus offset, start position); a
    posting list keeps its postings in insertion order and is serialized
    as the flat concatenation of its fixed-width records; deserialization
    decodes [byte_length / record_width] records. *)
Record Posting : Type := { p_domain : domain_t; p_location : Z; p_start : length_t }.

(** Modelled from the spec: [PostingList], the postings in insertion
    order. *)
Definition t : Type := list Posting.

(** Modelled from the spec: [PostingList::Append] adds one posting at the
    end (postings are only accumulated). *)
Definition Append (self : t) (domain : domain_t) (location : Z) (start : length_t) : t :=
  self ++ [ {| p_domain := domain; p_location := location; p_start := start |} ].

Definition record (p : Posting) : string :=
  SerializePosting (p_domain p) (p_location p) (p_start p).

(** Modelled from the spec: [PostingList::Serialize], the flat concatenation
    of the records. *)
Definition Serialize (self : t) : string :=
  fold_right String.append EmptyString (map record self).

(** Modelled from the spec: [PostingList::Deserialize] appends to the output
    vector the [byte_length / record_width] records of the data; bytes after
    the last whole record are not looked at. *)
Definition Deserialize (data : string) (outPositions : list location_t) : list location_t :=
  outPositions ++
  map (fun i => DeserializePosting (substring (i * kPostingRecordWidth) kPostingRecordWidth data))
      (seq 0 (String.length data / kPostingRecordWidth)%nat).
End PostingList.
End PostingList.

(** ** MergePositionOperator *)

Inductive merge_result : Type :=
| Merged (new_value : string)   (* [return true], with [*new_value] *)
| Declined.                     (* [return false] *)

Module MergePositionOperator.
Section MergePositionOperator.
Context `{DbKv}.

Definition MergePositionLists (existing_value : option string) (value : string) : string :=
  match existing_value with
  | Some existing => existing +:+ value
  | None => value
  end.

Definition MergeCounts (existing_value : option string) (value : string) : string :=
  let count := DeserializeCount value in
  let count :=
    match existing_value with
    | Some existing => int64_add count (DeserializeCount existing)
    | None => count
    end in
  SerializeCount count.

Definition Merge (key : string) (existing_value : option string) (value : string) : merge_result :=
  let tag := first_byte key in
  if Ascii.eqb tag kSourcePrefixKeyType then Merged (MergePositionLists existing_value value)
  else if Ascii.eqb tag kTargetCountKeyType then Merged (MergeCounts existing_value value)
  else Declined.

Definition Name : string := "MergePositionOperator".
End MergePositionOperator.
End MergePositionOperator.

(** ** The key-value engine and the other collaborators *)

(** One call recorded in a [rocksdb::WriteBatch], in call order. *)
Inductive WriteOp : Type :=
| WPut (key value : string)
| WMerge (key value : string).

Definition WriteBatch : Type := list WriteOp.

(** A [rocksdb::Iterator] from its current position on: either it is on a
    record ([Valid()]) and [Next()] moves to the rest, or it is past the last
    record it could read. [status()] is the status of the current position. *)
Inductive RocksIterator : Type :=
| ItEnd (st : Status)
| ItRec (st : Status) (key value : string) (rest : RocksIterator).

Definition it_Valid (it : RocksIterator) : bool :=
  match it with ItEnd _ => false | ItRec _ _ _ _ => true end.

Definition it_status (it : RocksIterator) : Status :=
  match it with ItEnd st => st | ItRec st _ _ _ => st end.

(** One setting made on [rocksdb::Options], in the order the constructor
    makes them. *)
Inductive OptionSetting : Type :=
| create_if_missing (b : bool)
| merge_operator (name : string)
| max_open_files (n : Z)
| compaction_style_kCompactionStyleLevel
| PrepareForBulkLoad
| IncreaseParallelism (threads : Z)
| level0_file_num_compaction_trigger (n : Z)
| level0_slowdown_writes_trigger (n : Z)
| level0_stop_writes_trigger (n : Z)
| num_levels (n : Z)
| write_buffer_size (n : Z)
| max_write_buffer_number (n : Z)
| target_file_size_base (n : Z)
| max_bytes_for_level_base (n : Z)
| max_bytes_for_level_multiplier (n : Z).

Definition Options : Type := list OptionSetting.

(** RocksDB, [PrefixCursor], [CorporaStorage], [GarbageCollector] and
    [boost::filesystem]: used by the source, defined elsewhere. A
    [PrefixCursor] positioned by [Seek] is the finite list of the
    [CountValue()] of the entries it still has to visit. *)
Class Env : Type := {
  DB : Type;
  DB_Open : Options -> string -> Status * DB;
  db_Get : DB -> string -> string -> Status * string;
  db_Write : DB -> WriteBatch -> Status * DB;
  db_CompactRange : DB -> DB;
  db_NewIterator_SeekToFirst : DB -> RocksIterator;
  NewGlobalCursor_Seek : DB -> nat -> sentence_t -> list Z;
  StorageManifest : Type;
  StorageManifest_Deserialize : string -> StorageManifest;
  StorageManifest_Serialize : StorageManifest -> string;
  CorporaStorage : Type;
  CorporaStorage_new : string -> StorageManifest -> outcome CorporaStorage;
  storage_Append :
    CorporaStorage -> domain_t -> sentence_t -> sentence_t -> alignment_t ->
    outcome Z * CorporaStorage;
  storage_Flush : CorporaStorage -> outcome unit * CorporaStorage;
  storage_GetManifest : CorporaStorage -> StorageManifest;
  double : Type;
  GarbageCollector : Type;
  GarbageCollector_new : CorporaStorage -> DB -> nat -> nat -> double -> GarbageCollector;
  MarkForDeletion : GarbageCollector -> gset domain_t -> GarbageCollector;
  is_directory : string -> bool;
  absolute_in : string -> string -> string;   (* [fs::absolute(dir / name)] *)
  hardware_concurrency : nat
}.

(** ** UpdateBatch *)

Record UpdateEntry : Type := {
  e_domain : domain_t;
  e_source : sentence_t;
  e_target : sentence_t;
  e_alignment : alignment_t
}.

Record UpdateBatch : Type := {
  data : list UpdateEntry;
  deletions : gset domain_t;
  GetStreams : list Z
}.

(** ** SuffixArray *)

Module SuffixArray.
Section SuffixArray.
Context `{DbKv} `{Env}.
Local Open Scope cpp_scope.

Record t : Type := {
  openForBulkLoad : bool;
  prefixLength : nat;
  db : DB;
  storage : CorporaStorage;
  streams : list Z;
  garbageCollector : GarbageCollector
}.

Definition set_db (d : DB) (this : t) : t :=
  {| openForBulkLoad := openForBulkLoad this; prefixLength := prefixLength this;
     db := d; storage := storage this; streams := streams this;
     garbageCollector := garbageCollector this |}.
Definition set_storage (s : CorporaStorage) (this : t) : t :=
  {| openForBulkLoad := openForBulkLoad this; prefixLength := prefixLength this;
     db := db this; storage := s; streams := streams this;
     garbageCollector := garbageCollector this |}.
Definition set_streams (s : list Z) (this : t) : t :=
  {| openForBulkLoad := openForBulkLoad this; prefixLength := prefixLength this;
     db := db this; storage := storage this; streams := s;
     garbageCollector := garbageCollector this |}.
Definition set_garbageCollector (g : GarbageCollector) (this : t) : t :=
  {| openForBulkLoad := openForBulkLoad this; prefixLength := prefixLength this;
     db := db this; storage := storage this; streams := streams this;
     garbageCollector := g |}.

Definition kStreamsKey : string := MakeEmptyKey kStreamsKeyType.
Definition kStorageManifestKey : string := MakeEmptyKey kStorageManifestKeyType.

(** *** Initialization *)

Definition tuned_options (prepareForBulkLoad : bool) : Options :=
  [create_if_missing true; merge_operator MergePositionOperator.Name;
   max_open_files (-1); compaction_style_kCompactionStyleLevel] ++
  (if prepareForBulkLoad then [PrepareForBulkLoad]
   else
     let cpus := hardware_concurrency in
     (if (1 <? cpus)%nat then [IncreaseParallelism (if (4 <? cpus)%nat then 4 else 2)] else []) ++
     [level0_file_num_compaction_trigger 8;
      level0_slowdown_writes_trigger 17;
      level0_stop_writes_trigger 24;
      num_levels 4;
      write_buffer_size (64 * 1024 * 1024);
      max_write_buffer_number 3;
      target_file_size_base (64 * 1024 * 1024);
      max_bytes_for_level_base (512 * 1024 * 1024);
      max_bytes_for_level_multiplier 8]).

(** The constructor, declared [throw(index_exception, storage_exception)]. *)
Definition new (modelPath : string) (prefixLength : nat) (gcTimeout : double)
    (gcBatchSize : nat) (prepareForBulkLoad : bool) : outcome t :=
  unexpected_unless index_or_storage_exception
  (if negb (is_directory modelPath) then
    Thrown (invalid_argument ("Invalid model path: " +:+ modelPath))
  else
    let storageFolder := absolute_in modelPath "storage" in
    let indexPath := absolute_in modelPath "index" in
    let options := tuned_options prepareForBulkLoad in
    let '(status, db) := DB_Open options indexPath in
    if negb (ok status) then Thrown (index_exception (ToString status))
    else
      (* Read streams *)
      let raw_streams := snd (db_Get db kStreamsKey EmptyString) in
      let streams := DeserializeStreams raw_streams [] in
      (* Load storage *)
      let raw_manifest := snd (db_Get db kStorageManifestKey EmptyString) in
      let manifest := StorageManifest_Deserialize raw_manifest in
      match CorporaStorage_new storageFolder manifest with
      | Thrown e => Thrown e
      | Terminated e => Terminated e
      | Returned storage =>
          (* Garbage collector *)
          let garbageCollector :=
            GarbageCollector_new storage db prefixLength gcBatchSize gcTimeout in
          Returned {| openForBulkLoad := prepareForBulkLoad; prefixLength := prefixLength;
                      db := db; storage := storage; streams := streams;
                      garbageCollector := garbageCollector |}
      end).

(** *** Calls on the members *)

Definition storage_Append_m (domain : domain_t) (source target : sentence_t)
    (alignment : alignment_t) : M t Z :=
  fun this =>
    let '(r, s) := storage_Append (storage this) domain source target alignment in
    (r, set_storage s this).

Definition storage_Flush_m : M t unit :=
  fun this => let '(r, s) := storage_Flush (storage this) in (r, set_storage s this).

Definition db_Write_m (writeBatch : WriteBatch) : M t Status :=
  fun this => let '(status, d) := db_Write (db this) writeBatch in (Returned status, set_db d this).

(** *** Indexing *)

(** [ForceCompaction], declared [throw(index_exception)]. *)
Definition ForceCompaction : M t unit :=
  throw_spec only_index_exception
  (bulk <- gets openForBulkLoad;;
  (if bulk : bool then
     (* Write streams *)
     s <- gets streams;;
     let writeBatch := [WPut kStreamsKey (SerializeStreams s)] in
     (* Write storage manifest *)
     storage_Flush_m;;;
     st <- gets storage;;
     let manifest := StorageManifest_Serialize (storage_GetManifest st) in
     let writeBatch := writeBatch ++ [WPut kStorageManifestKey manifest] in
     (* Commit write batch *)
     status <- db_Write_m writeBatch;;
     if negb (ok status)
     then throw (index_exception ("Unable to write to index: " +:+ ToString status))
     else ret tt
   else ret tt);;;
  modify (fun this => set_db (db_CompactRange (db this)) this)).

(** The inner loop of [AddPrefixesToBatch], over the lengths still to
    visit; [break] leaves it. *)
Fixpoint AddPrefixesToBatch_lengths (prefixLength : nat) (domain : domain_t)
    (sentence : sentence_t) (location : Z) (start : nat) (lengths : list nat)
    (outBatch : gmap string PostingList.t) : gmap string PostingList.t :=
  match lengths with
  | [] => outBatch
  | length :: lengths' =>
      if (List.length sentence <? start + length)%nat then outBatch
      else
        let dkey := MakePrefixKey prefixLength domain sentence start length in
        AddPrefixesToBatch_lengths prefixLength domain sentence location start lengths'
          (<[dkey := PostingList.Append (default [] (outBatch !! dkey))
                       domain location (to_length_t start)]> outBatch)
  end.

Definition AddPrefixesToBatch (prefixLength : nat) (domain : domain_t)
    (sentence : sentence_t) (location : Z)
    (outBatch : gmap string PostingList.t) : gmap string PostingList.t :=
  let size := List.length sentence in
  fold_left
    (fun out start =>
       AddPrefixesToBatch_lengths prefixLength domain sentence location start
         (seq 1 prefixLength) out)
    (seq 0 size) outBatch.

Fixpoint AddTargetCountsToBatch_lengths (prefixLength : nat) (sentence : sentence_t)
    (start : nat) (lengths : list nat) (outBatch : gmap string Z) : gmap string Z :=
  match lengths with
  | [] => outBatch
  | length :: lengths' =>
      if (List.length sentence <? start + length)%nat then outBatch
      else
        let dkey := MakeCountKey prefixLength sentence start length in
        AddTargetCountsToBatch_lengths prefixLength sentence start lengths'
          (<[dkey := int64_add (default 0 (outBatch !! dkey)) 1]> outBatch)
  end.

Definition AddTargetCountsToBatch (prefixLength : nat) (sentence : sentence_t)
    (outBatch : gmap string Z) : gmap string Z :=
  let size := List.length sentence in
  fold_left
    (fun out start =>
       AddTargetCountsToBatch_lengths prefixLength sentence start (seq 1 prefixLength) out)
    (seq 0 size) outBatch.

(** The loop of [PutBatch] over [batch.data]. *)
Fixpoint PutBatch_entries (entries : list UpdateEntry)
    (sourcePrefixes : gmap string PostingList.t) (targetCounts : gmap string Z)
    : M t (gmap string PostingList.t * gmap string Z) :=
  match entries with
  | [] => ret (sourcePrefixes, targetCounts)
  | entry :: entries' =>
      let domain := e_domain entry in
      offset <- storage_Append_m domain (e_source entry) (e_target entry) (e_alignment entry);;
      L <- gets prefixLength;;
      let sourcePrefixes := AddPrefixesToBatch L domain (e_source entry) offset sourcePrefixes in
      let targetCounts := AddTargetCountsToBatch L (e_target entry) targetCounts in
      PutBatch_entries entries' sourcePrefixes targetCounts
  end.

(** [PutBatch] up to the commit: the write batch it has built. *)
Definition PutBatch_writeBatch (batch : UpdateBatch) : M t WriteBatch :=
  (* Compute prefixes *)
  maps <- PutBatch_entries (data batch) ∅ ∅;;
  let '(sourcePrefixes, targetCounts) := maps in
  (* Add prefixes to write batch *)
  let writeBatch :=
    map (fun prefix => WMerge (fst prefix) (PostingList.Serialize (snd prefix)))
        (map_to_list sourcePrefixes) in
  (* Add target counts to write batch *)
  let writeBatch := writeBatch ++
    map (fun count => WMerge (fst count) (SerializeCount (snd count)))
        (map_to_list targetCounts) in
  (* Write deleted domains *)
  let writeBatch := writeBatch ++
    map (fun domain => WPut (MakeDomainDeletionKey domain) EmptyString)
        (elements (deletions batch)) in
  (* Write streams *)
  s <- gets streams;;
  let writeBatch := writeBatch ++ [WPut kStreamsKey (SerializeStreams s)] in
  (* Write storage manifest *)
  bulk <- gets openForBulkLoad;;
  if bulk : bool then ret writeBatch
  else
    storage_Flush_m;;;
    st <- gets storage;;
    let manifest := StorageManifest_Serialize (storage_GetManifest st) in
    ret (writeBatch ++ [WPut kStorageManifestKey manifest]).

(** [PutBatch], declared [throw(index_exception, storage_exception)]. *)
Definition PutBatch (batch : UpdateBatch) : M t unit :=
  throw_spec index_or_storage_exception
  (writeBatch <- PutBatch_writeBatch batch;;
  (* Commit write batch *)
  status <- db_Write_m writeBatch;;
  if negb (ok status)
  then throw (index_exception ("Unable to write to index: " +:+ ToString status))
  else
    (* Reset streams and domains *)
    modify (set_streams (GetStreams batch));;;
    modify (fun this =>
              set_garbageCollector (MarkForDeletion (garbageCollector this) (deletions batch)) this)).

(** *** Query *)

(** [for (cursor->Seek(phrase); cursor->HasNext(); cursor->Next())
      count += cursor->CountValue();] *)
Fixpoint cursor_loop (cursor : list Z) (count : Z) : Z :=
  match cursor with
  | [] => count
  | CountValue :: cursor' => cursor_loop cursor' (int64_add count CountValue)
  end.

Definition CountOccurrences (isSource : bool) (phrase : sentence_t) : M t Z :=
  L <- gets prefixLength;;
  if (L <? List.length phrase)%nat then
    ret 1 (* Approximate higher order n-grams to singletons *)
  else
    d <- gets db;;
    let count :=
      if isSource then
        let cursor := NewGlobalCursor_Seek d L phrase in
        cursor_loop cursor 0
      else
        let key := MakeCountKey L phrase 0 (List.length phrase) in
        let value := snd (db_Get d key EmptyString) in
        DeserializeCount value in
    ret (to_size_t (Z.max count 1)).
End SuffixArray.
End SuffixArray.

(** ** IndexIterator *)

Module IndexIterator.
Section IndexIterator.
Context `{DbKv} `{Env}.

Record IndexEntry : Type := {
  is_source : bool;
  domain : domain_t;
  words : list wid_t;
  positions : list location_t;
  count : Z
}.

Record t : Type := { prefixLength : nat; it : RocksIterator }.

(** [SuffixArray::NewIterator] and the constructor it calls. *)
Definition NewIterator (sa : SuffixArray.t) : t :=
  {| prefixLength := SuffixArray.prefixLength sa;
     it := db_NewIterator_SeekToFirst (SuffixArray.db sa) |}.

(** The body of the [switch]: the entry after it, and [loop]. *)
Definition decode (prefixLength : nat) (key value : string) (outEntry : IndexEntry)
    : IndexEntry * bool :=
  let type := GetKeyTypeFromKey key prefixLength in
  if Ascii.eqb type kSourcePrefixKeyType then
    let positions := PostingList.Deserialize value [] in
    ({| is_source := true;
        domain := GetDomainFromKey key prefixLength;
        words := GetWordsFromKey key prefixLength [];
        positions := positions;
        count := Z.of_nat (List.length positions) |}, false)
  else if Ascii.eqb type kTargetCountKeyType then
    ({| is_source := false;
        domain := 0;
        words := GetWordsFromKey key prefixLength [];
        positions := [];
        count := DeserializeCount value |}, false)
  else (outEntry, true).

(** [while (it->Valid()) { ... }], by recursion on what the scan has left. *)
Fixpoint Next_loop (prefixLength : nat) (it : RocksIterator) (outEntry : IndexEntry)
    : outcome bool * (RocksIterator * IndexEntry) :=
  match it with
  | ItEnd _ => (Returned false, (it, outEntry))
  | ItRec _ key value rest =>
      let '(outEntry, loop) := decode prefixLength key value outEntry in
      (* it->Next() *)
      let status := it_status rest in
      if negb (ok status) then (Thrown (index_exception (ToString status)), (rest, outEntry))
      else if loop : bool then Next_loop prefixLength rest outEntry
      else (Returned true, (rest, outEntry))
  end.

Definition Next : M (t * IndexEntry) bool :=
  fun '(this, outEntry) =>
    let '(r, (it', outEntry')) := Next_loop (prefixLength this) (it this) outEntry in
    (r, ({| prefixLength := prefixLength this; it := it' |}, outEntry')).
End IndexIterator.
End IndexIterator.

(** ** Iterating an index to the end *)

Module FullScan.
Section FullScan.
Context `{DbKv} `{Env}.

(** A caller that keeps calling [Next] until it returns [false] or throws,
    and collects the entries reported. [None]: more calls are needed than
    [calls] allows. *)
Fixpoint drain (calls : nat) (s : IndexIterator.t * IndexIterator.IndexEntry)
    : option (outcome (list IndexIterator.IndexEntry)) :=
  match calls with
  | O => None
  | S calls' =>
      match IndexIterator.Next s with
      | (Thrown e, _) => Some (Thrown e)
      | (Terminated e, _) => Some (Terminated e)
      | (Returned false, _) => Some (Returned [])
      | (Returned true, s') =>
          match drain calls' s' with
          | Some (Returned entries) => Some (Returned (snd s' :: entries))
          | r => r
          end
      end
  end.

(** The number of records a scan has left, and whether every position of
    it has an OK status. *)
Fixpoint scan_length (it : RocksIterator) : nat :=
  match it with
  | ItEnd _ => O
  | ItRec _ _ _ rest => S (scan_length rest)
  end.

Fixpoint scan_ok (it : RocksIterator) : bool :=
  match it with
  | ItEnd st => ok st
  | ItRec st _ _ rest => ok st && scan_ok rest
  end.

(** The entries of the records of a scan whose type is recognized, in the
    order of the scan. *)
Fixpoint reported (prefixLength : nat) (it : RocksIterator)
    (outEntry : IndexIterator.IndexEntry) : list IndexIterator.IndexEntry :=
  match it with
  | ItEnd _ => []
  | ItRec _ key value rest =>
      let '(outEntry', loop) := IndexIterator.decode prefixLength key value outEntry in
      if loop : bool then reported prefixLength rest outEntry'
      else outEntry' :: reported prefixLength rest outEntry'
  end.

(** The same from a [SuffixArray]: [NewIterator], then the calls. *)
Definition iterate (calls : nat) (outEntry : IndexIterator.IndexEntry)
    : M SuffixArray.t (option (outcome (list IndexIterator.IndexEntry))) :=
  (it <- gets IndexIterator.NewIterator;;
   ret (drain calls (it, outEntry)))%cpp.
End FullScan.
End FullScan.

(** ** What the indexing loops are specified to visit *)

(** Every start position of a sentence of [size] words with every prefix
    length from 1 to [min L remaining], in the order of the loops. *)
Definition prefix_spans (L size : nat) : list (nat * nat) :=
  flat_map (fun start => map (pair start) (seq 1 (Nat.min L (size - start)))) (seq 0 size).

Section Occurrences.
Context `{DbKv} `{Env}.

Definition posting_at (domain : domain_t) (location : Z) (span : nat * nat)
    : PostingList.Posting :=
  {| PostingList.p_domain := domain;
     PostingList.p_location := location;
     PostingList.p_start := to_length_t (fst span) |}.

(** The postings one entry contributes under [key]: one for each span of
    its source sentence whose prefix key is [key]. *)
Definition source_postings (L : nat) (domain : domain_t) (sentence : sentence_t)
    (location : Z) (key : string) : PostingList.t :=
  map (posting_at domain location)
      (filter (fun span => MakePrefixKey L domain sentence (fst span) (snd span) = key)
              (prefix_spans L (List.length sentence))).

(** The number of spans of a target sentence whose count key is [key]. *)
Definition target_occurrences (L : nat) (sentence : sentence_t) (key : string) : nat :=
  List.length
    (filter (fun span => MakeCountKey L sentence (fst span) (snd span) = key)
            (prefix_spans L (List.length sentence))).

(** One posting accumulated for a span:
    [outBatch[dkey].Append(domain, location, (length_t) start)]. *)
Definition accumulate_posting (L : nat) (domain : domain_t) (sentence : sentence_t)
    (location : Z) (outBatch : gmap string PostingList.t) (span : nat * nat)
    : gmap string PostingList.t :=
  let dkey := MakePrefixKey L domain sentence (fst span) (snd span) in
  <[dkey := PostingList.Append (default [] (outBatch !! dkey))
              domain location (to_length_t (fst span))]> outBatch.

(** One count incremented for a span: [outBatch[dkey]++]. *)
Definition increment_count (L : nat) (sentence : sentence_t)
    (outBatch : gmap string Z) (span : nat * nat) : gmap string Z :=
  let dkey := MakeCountKey L sentence (fst span) (snd span) in
  <[dkey := int64_add (default 0 (outBatch !! dkey)) 1]> outBatch.

(** [count++] on an [int64_t], [n] times. *)
Definition incremented (n : nat) (count : Z) : Z :=
  Nat.iter n (fun c => int64_add c 1) count.

(** The offsets [storage->Append] returns for the entries of a batch, as
    long as it does not throw. *)
Fixpoint appended_offsets (storage : CorporaStorage) (entries : list UpdateEntry) : list Z :=
  match entries with
  | [] => []
  | entry :: entries' =>
      match storage_Append storage (e_domain entry) (e_source entry) (e_target entry)
              (e_alignment entry) with
      | (Returned offset, storage') => offset :: appended_offsets storage' entries'
      | (Thrown _, _) | (Terminated _, _) => []
      end
  end.

(** All postings of a batch under [key], entry after entry. *)
Definition batch_postings (L : nat) (entries : list UpdateEntry) (offsets : list Z)
    (key : string) : PostingList.t :=
  flat_map (fun eo => source_postings L (e_domain (fst eo)) (e_source (fst eo)) (snd eo) key)
           (combine entries offsets).

(** All occurrences in the target sentences of a batch under [key]. *)
Definition batch_occurrences (L : nat) (entries : list UpdateEntry) (key : string) : nat :=
  list_sum (map (fun entry => target_occurrences L (e_target entry) key) entries).

(** The values a write batch puts under [key], in call order. *)
Definition put_values (key : string) (writeBatch : WriteBatch) : list string :=
  flat_map (fun op => match op with
                      | WPut k v => if String.eqb k key then [v] else []
                      | WMerge _ _ => []
                      end) writeBatch.

Definition is_put (op : WriteOp) : Prop :=
  match op with WPut _ _ => True | WMerge _ _ => False end.

Definition merge_keys (writeBatch : WriteBatch) : list string :=
  flat_map (fun op => match op with WMerge k _ => [k] | WPut _ _ => [] end) writeBatch.
End Occurrences.

(** ** Orders and groupings of pairwise merges *)

(** Values one after the other, as one string. *)
Definition joined (values : list string) : string :=
  fold_right String.append EmptyString values.

(** A way to combine operands by pairwise merges: the left result is the
    existing value, the right result the incoming one. *)
Inductive merge_order : Type :=
| Operand (value : string)
| Merges (existing incoming : merge_order).

Fixpoint operands (t : merge_order) : list string :=
  match t with
  | Operand v => [v]
  | Merges l r => operands l ++ operands r
  end.

Section MergeOrders.
Context `{DbKv}.

(** The value the operator leaves under [key] after the merges of [t];
    [None] when it declines one of them. *)
Fixpoint merge_all (key : string) (t : merge_order) : option string :=
  match t with
  | Operand v => Some v
  | Merges l r =>
      match merge_all key l, merge_all key r with
      | Some existing, Some value =>
          match MergePositionOperator.Merge key (Some existing) value with
          | Merged new_value => Some new_value
          | Declined => None
          end
      | _, _ => None
      end
  end.

(** A posting-list fragment: a whole number of records. *)
Definition fragment (value : string) : Prop :=
  (String.length value mod kPostingRecordWidth = 0)%nat.
End MergeOrders.

(** ** A small instance of the interfaces *)

(** One codec and one engine that fit the interfaces above, to run the
    definitions on concrete indexes. Integers are little-endian and
    fixed-width; a key is its tag, its words padded with zeros to the prefix
    length and, for a source prefix, the domain; the engine is a finite map
    that applies [MergePositionOperator]. *)
Module Sample.

Fixpoint encode_le (n : nat) (z : Z) : string :=
  match n with
  | O => EmptyString
  | S n' => String (ascii_of_N (Z.to_N (z mod 256))) (encode_le n' (z / 256))
  end.

Fixpoint decode_le (s : string) : Z :=
  match s with
  | EmptyString => 0
  | String c s' => Z.of_N (N_of_ascii c) + 256 * decode_le s'
  end.

Definition encode_words (L : nat) (ws : list wid_t) : string :=
  fold_right String.append EmptyString
    (map (encode_le 4) (firstn L (ws ++ repeat 0 L))).

Fixpoint decode_all (width : nat) (records : nat) (s : string) : list Z :=
  match records with
  | O => []
  | S records' =>
      decode_le (substring 0 width s)
      :: decode_all width records' (substring width (String.length s - width) s)
  end.

Definition phrase_at (sentence : sentence_t) (start length : nat) : list wid_t :=
  firstn length (skipn start sentence).

Definition tag (n : N) : ascii := ascii_of_N n.

#[export] Instance codec : DbKv := {|
  length_t_bits := 16;
  kStreamsKeyType := tag 0;
  kStorageManifestKeyType := tag 1;
  kSourcePrefixKeyType := tag 2;
  kTargetCountKeyType := tag 3;
  kDomainDeletionKeyType := tag 4;
  MakeEmptyKey := fun type => String type EmptyString;
  MakePrefixKey := fun L domain sentence start length =>
    String (tag 2) (encode_words L (phrase_at sentence start length) +:+ encode_le 4 domain);
  MakeCountKey := fun L sentence start length =>
    String (tag 3) (encode_words L (phrase_at sentence start length));
  MakeDomainDeletionKey := fun domain => String (tag 4) (encode_le 4 domain);
  GetKeyTypeFromKey := fun key _ => first_byte key;
  GetDomainFromKey := fun key L => decode_le (substring (1 + 4 * L) 4 key);
  GetWordsFromKey := fun key L outWords =>
    outWords ++ filter (fun w => w <> 0) (decode_all 4 L (substring 1 (4 * L) key));
  SerializeCount := encode_le 8;
  DeserializeCount := fun s =>
    if (String.length s =? 8)%nat then int64_wrap (decode_le s) else 0;
  SerializeStreams := fun streams =>
    fold_right String.append EmptyString (map (encode_le 8) streams);
  DeserializeStreams := fun s out =>
    out ++ map int64_wrap (decode_all 8 (String.length s / 8) s);
  location_t := Z * Z * Z;
  kPostingRecordWidth := 14;
  SerializePosting := fun domain location start =>
    encode_le 4 domain +:+ encode_le 8 location +:+ encode_le 2 start;
  DeserializePosting := fun s =>
    (decode_le (substring 0 4 s), int64_wrap (decode_le (substring 4 8 s)),
     decode_le (substring 12 2 s))
|}.

Definition OK : Status := {| ok := true; ToString := "OK" |}.
Definition IOError : Status := {| ok := false; ToString := "IO error" |}.

(** One operation of a write batch on the map. A merge the operator
    declines leaves the map as it is. *)
Definition apply_op (kv : gmap string string) (op : WriteOp) : gmap string string :=
  match op with
  | WPut key value => <[key := value]> kv
  | WMerge key value =>
      match MergePositionOperator.Merge key (kv !! key) value with
      | Merged new_value => <[key := new_value]> kv
      | Declined => kv
      end
  end.

Definition key_le (r1 r2 : string * string) : Prop := String.le (fst r1) (fst r2).

#[export] Instance key_le_dec : RelDecision key_le :=
  fun r1 r2 => decide (String.le (fst r1) (fst r2)).

Definition scan (kv : gmap string string) : RocksIterator :=
  fold_right (fun r rest => ItRec OK (fst r) (snd r) rest) (ItEnd OK)
             (merge_sort key_le (map_to_list kv)).

(** The index opens everywhere but under ["/broken"]; only ["/model"] and
    ["/broken"] are directories. *)
#[export] Instance engine : Env := {|
  DB := gmap string string;
  DB_Open := fun _ indexPath =>
    if String.eqb indexPath "/broken/index" then (IOError, ∅) else (OK, ∅);
  db_Get := fun kv key value =>
    match kv !! key with
    | Some v => (OK, v)
    | None => ({| ok := false; ToString := "NotFound" |}, value)
    end;
  db_Write := fun kv writeBatch => (OK, fold_left apply_op writeBatch kv);
  db_CompactRange := fun kv => kv;
  db_NewIterator_SeekToFirst := scan;
  NewGlobalCursor_Seek := fun kv L phrase =>
    map (fun r => Z.of_nat (String.length (snd r) / 14))
        (filter (fun r => String.prefix (String (tag 2) (encode_words (List.length phrase) phrase))
                                        (fst r) = true)
                (map_to_list kv));
  StorageManifest := nat;
  StorageManifest_Deserialize := fun s => Z.to_nat (decode_le s);
  StorageManifest_Serialize := fun n => encode_le 8 (Z.of_nat n);
  CorporaStorage := list UpdateEntry;
  CorporaStorage_new := fun _ _ => Returned [];
  storage_Append := fun storage domain source target alignment =>
    (Returned (Z.of_nat (List.length storage)),
     storage ++ [ {| e_domain := domain; e_source := source; e_target := target;
                     e_alignment := alignment |} ]);
  storage_Flush := fun storage => (Returned tt, storage);
  storage_GetManifest := fun storage => List.length storage;
  double := Z;
  GarbageCollector := gset domain_t;
  GarbageCollector_new := fun _ _ _ _ _ => ∅;
  MarkForDeletion := fun marked domains => marked ∪ domains;
  is_directory := fun path => String.eqb path "/model" || String.eqb path "/broken";
  absolute_in := fun dir name => dir +:+ "/" +:+ name;
  hardware_concurrency := 8
|}.

(** An index over ["/model"] with prefix length 3 whose stream state is
    [[1]], and a batch of one sentence pair that moves it to [[2]]. *)
Definition sa0 : SuffixArray.t :=
  {| SuffixArray.openForBulkLoad := false;
     SuffixArray.prefixLength := 3;
     SuffixArray.db := ∅;
     SuffixArray.storage := [];
     SuffixArray.streams := [1];
     SuffixArray.garbageCollector := ∅ |}.

Definition batch0 : UpdateBatch :=
  {| data := [ {| e_domain := 1; e_source := [5; 9; 12]; e_target := [20; 21];
                  e_alignment := [(0, 0); (1, 1)] |} ];
     deletions := ∅;
     GetStreams := [2] |}.

(** Three fragments of one posting each. *)
Definition fragmentA : string := PostingList.Serialize (PostingList.Append [] 1 0 0).
Definition fragmentB : string := PostingList.Serialize (PostingList.Append [] 1 1 2).
Definition fragmentC : string := PostingList.Serialize (PostingList.Append [] 2 5 1).

Definition entry0 : IndexIterator.IndexEntry :=
  {| IndexIterator.is_source := false; IndexIterator.domain := 0;
     IndexIterator.words := []; IndexIterator.positions := [];
     IndexIterator.count := 0 |}.
End Sample.

(** ** Puts of a write batch, faults of a scan *)

(** The key and value of every [Put] of a write batch, in call order. *)
Definition puts (writeBatch : WriteBatch) : list (string * string) :=
  flat_map (fun op => match op with WPut k v => [(k, v)] | WMerge _ _ => [] end) writeBatch.

(** The first status that is not OK among the positions after the current
    one: the statuses [IndexIterator::Next] reads after [it->Next()]. *)
Fixpoint first_fault (it : RocksIterator) : option Status :=
  match it with
  | ItEnd _ => None
  | ItRec _ _ _ rest => if ok (it_status rest) then first_fault rest else Some (it_status rest)
  end.

(** ** A second instance, with faults *)

(** The sample engine with three faults: no write batch commits, the corpus
    storage refuses entries of domain 0, and the storage of a model does not
    open. *)
Module Faulty.

Definition engine : Env := {|
  DB := gmap string string;
  DB_Open := @DB_Open Sample.engine;
  db_Get := @db_Get Sample.engine;
  db_Write := fun kv _ => (Sample.IOError, kv);
  db_CompactRange := @db_CompactRange Sample.engine;
  db_NewIterator_SeekToFirst := @db_NewIterator_SeekToFirst Sample.engine;
  NewGlobalCursor_Seek := @NewGlobalCursor_Seek Sample.engine;
  StorageManifest := nat;
  StorageManifest_Deserialize := @StorageManifest_Deserialize Sample.engine;
  StorageManifest_Serialize := @StorageManifest_Serialize Sample.engine;
  CorporaStorage := list UpdateEntry;
  CorporaStorage_new := fun folder _ =>
    Thrown (storage_exception ("Unable to open " +:+ folder));
  storage_Append := fun storage domain source target alignment =>
    if domain =? 0 then (Thrown (storage_exception "Domain 0 is reserved"), storage)
    else @storage_Append Sample.engine storage domain source target alignment;
  storage_Flush := @storage_Flush Sample.engine;
  storage_GetManifest := @storage_GetManifest Sample.engine;
  double := Z;
  GarbageCollector := gset domain_t;
  GarbageCollector_new := @GarbageCollector_new Sample.engine;
  MarkForDeletion := @MarkForDeletion Sample.engine;
  is_directory := @is_directory Sample.engine;
  absolute_in := @absolute_in Sample.engine;
  hardware_concurrency := 1
|}.

(** An index opened for bulk load over the faulty engine, and a batch with
    one entry of domain 0 after one of domain 1. *)
Definition sa_bulk : @SuffixArray.t engine :=
  {| SuffixArray.openForBulkLoad := true;
     SuffixArray.prefixLength := 3;
     SuffixArray.db := ∅ : @DB engine;
     SuffixArray.storage := [] : @CorporaStorage engine;
     SuffixArray.streams := [1];
     SuffixArray.garbageCollector := ∅ : @GarbageCollector engine |}.

Definition batch_refused : UpdateBatch :=
  {| data := [ {| e_domain := 1; e_source := [5; 9]; e_target := [20];
                  e_alignment := [(0, 0)] |};
               {| e_domain := 0; e_source := [7]; e_target := [8];
                  e_alignment := [(0, 0)] |} ];
     deletions := {[ 4 ]};
     GetStreams := [2] |}.

(** The sample engine with a storage that cannot flush, and an index opened
    for bulk load over it. *)
Definition engine_no_flush : Env := {|
  DB := gmap string string;
  DB_Open := @DB_Open Sample.engine;
  db_Get := @db_Get Sample.engine;
  db_Write := @db_Write Sample.engine;
  db_CompactRange := @db_CompactRange Sample.engine;
  db_NewIterator_SeekToFirst := @db_NewIterator_SeekToFirst Sample.engine;
  NewGlobalCursor_Seek := @NewGlobalCursor_Seek Sample.engine;
  StorageManifest := nat;
  StorageManifest_Deserialize := @StorageManifest_Deserialize Sample.engine;
  StorageManifest_Serialize := @StorageManifest_Serialize Sample.engine;
  CorporaStorage := list UpdateEntry;
  CorporaStorage_new := @CorporaStorage_new Sample.engine;
  storage_Append := @storage_Append Sample.engine;
  storage_Flush := fun storage => (Thrown (storage_exception "Unable to flush"), storage);
  storage_GetManifest := @storage_GetManifest Sample.engine;
  double := Z;
  GarbageCollector := gset domain_t;
  GarbageCollector_new := @GarbageCollector_new Sample.engine;
  MarkForDeletion := @MarkForDeletion Sample.engine;
  is_directory := @is_directory Sample.engine;
  absolute_in := @absolute_in Sample.engine;
  hardware_concurrency := 1
|}.

Definition sa_no_flush : @SuffixArray.t engine_no_flush :=
  {| SuffixArray.openForBulkLoad := true;
     SuffixArray.prefixLength := 3;
     SuffixArray.db := ∅ : @DB engine_no_flush;
     SuffixArray.storage := [] : @CorporaStorage engine_no_flush;
     SuffixArray.streams := [1];
     SuffixArray.garbageCollector := ∅ : @GarbageCollector engine_no_flush |}.
End Faulty.

(** More sample values: an index opened for bulk load, a batch that only
    marks domains for deletion, and two scans of three records, the second
    with a fault after its second record. *)
Module Sample2.
Import Sample.

Definition sa_bulk : SuffixArray.t :=
  {| SuffixArray.openForBulkLoad := true;
     SuffixArray.prefixLength := 3;
     SuffixArray.db := ∅;
     SuffixArray.storage := [];
     SuffixArray.streams := [1];
     SuffixArray.garbageCollector := ∅ |}.

Definition batch_deletions : UpdateBatch :=
  {| data := []; deletions := {[ 4; 7 ]}; GetStreams := [3] |}.

Definition scan3 : RocksIterator :=
  ItRec OK (MakeEmptyKey kStreamsKeyType) (SerializeStreams [1])
    (ItRec OK (MakePrefixKey 3 1 [5; 9] 0 2) fragmentA
       (ItRec OK (MakeCountKey 3 [20; 21] 0 2) (SerializeCount 2) (ItEnd OK))).

Definition scan3_fault : RocksIterator :=
  ItRec OK (MakeEmptyKey kStreamsKeyType) (SerializeStreams [1])
    (ItRec OK (MakePrefixKey 3 1 [5; 9] 0 2) fragmentA
       (ItRec IOError (MakeCountKey 3 [20; 21] 0 2) (SerializeCount 2) (ItEnd OK))).
End Sample2.

(** * Properties *)

Ltac run_cpp :=
  unfold throw_spec, bind, gets, ret, throw, modify,
    SuffixArray.storage_Append_m, SuffixArray.storage_Flush_m, SuffixArray.db_Write_m;
  simpl.

(** ** Machine integers *)

Lemma int64_wrap_range z : in_int64 (int64_wrap z).
Proof.
  unfold in_int64, int64_wrap, int64_min, int64_max.
  pose proof (Z.mod_pos_bound (z + 2 ^ 63) (2 ^ 64) ltac:(lia)). lia.
Qed.

Lemma int64_wrap_id z : in_int64 z -> int64_wrap z = z.
Proof.
  unfold in_int64, int64_wrap, int64_min, int64_max. intros Hz.
  rewrite Z.mod_small; lia.
Qed.

Lemma int64_wrap_add_l a b : int64_wrap (int64_wrap a + b) = int64_wrap (a + b).
Proof.
  unfold int64_wrap.
  replace ((a + 2 ^ 63) mod 2 ^ 64 - 2 ^ 63 + b + 2 ^ 63)
    with ((a + 2 ^ 63) mod 2 ^ 64 + b) by lia.
  rewrite Zplus_mod_idemp_l. f_equal. f_equal. lia.
Qed.

Lemma int64_wrap_add_r a b : int64_wrap (a + int64_wrap b) = int64_wrap (a + b).
Proof. rewrite (Z.add_comm a), int64_wrap_add_l. f_equal. lia. Qed.

Lemma int64_add_comm a b : int64_add a b = int64_add b a.
Proof. unfold int64_add. f_equal. lia. Qed.

Lemma int64_add_assoc a b c : int64_add (int64_add a b) c = int64_add a (int64_add b c).
Proof.
  unfold int64_add. rewrite int64_wrap_add_l, int64_wrap_add_r. f_equal. lia.
Qed.

Lemma to_size_t_floor count : in_int64 count -> 1 <= to_size_t (Z.max count 1).
Proof.
  unfold in_int64, int64_min, int64_max, to_size_t. intros Hc.
  rewrite Z.mod_small; lia.
Qed.

(** ** The merge operator *)

Section MergeProperties.
Context `{DbKv}.
Import MergePositionOperator.

(** C2. What [Merge] does is fixed by the first byte of the key. Under a
    source-prefix tag the new value is the existing value (nothing when
    absent) followed by the incoming one; under a target-count tag it is
    the serialized sum of the two decoded counts, an absent existing value
    counting as zero; under every other tag the operator declines. *)
Theorem Merge_by_key_tag (key : string) (existing_value : option string) (value : string) :
  kSourcePrefixKeyType <> kTargetCountKeyType ->
  (first_byte key = kSourcePrefixKeyType ->
     Merge key existing_value value = Merged (default EmptyString existing_value +:+ value)) /\
  (first_byte key = kTargetCountKeyType ->
     Merge key existing_value value =
     Merged (SerializeCount
               match existing_value with
               | Some existing => int64_add (DeserializeCount existing) (DeserializeCount value)
               | None => 0 + DeserializeCount value
               end)) /\
  (first_byte key <> kSourcePrefixKeyType -> first_byte key <> kTargetCountKeyType ->
     Merge key existing_value value = Declined).
Proof.
  intros Htags. unfold Merge. repeat split.
  - intros ->. rewrite Ascii.eqb_refl. destruct existing_value; reflexivity.
  - intros ->.
    destruct (Ascii.eqb_spec kTargetCountKeyType kSourcePrefixKeyType) as [E|_];
      [congruence|].
    rewrite Ascii.eqb_refl. unfold MergeCounts.
    destruct existing_value; simpl; [now rewrite int64_add_comm | reflexivity].
  - intros Hs Ht.
    destruct (Ascii.eqb_spec (first_byte key) kSourcePrefixKeyType); [contradiction|].
    destruct (Ascii.eqb_spec (first_byte key) kTargetCountKeyType); [contradiction|].
    reflexivity.
Qed.
End MergeProperties.

(** ** Counting *)

Section CountProperties.
Context `{DbKv} `{Env}.
Import SuffixArray.

Lemma cursor_loop_range cursor count : in_int64 count -> in_int64 (cursor_loop cursor count).
Proof.
  revert count. induction cursor as [|v cursor IH]; intros count Hc; simpl; [exact Hc|].
  apply IH, int64_wrap_range.
Qed.

(** C5. A phrase longer than the prefix length counts as 1, on either
    side and whatever the index holds. *)
Theorem CountOccurrences_long_phrase (this : t) (isSource : bool) (phrase : sentence_t) :
  (prefixLength this < List.length phrase)%nat ->
  fst (CountOccurrences isSource phrase this) = Returned 1.
Proof.
  intros Hlen. unfold CountOccurrences. run_cpp.
  destruct (Nat.ltb_spec (prefixLength this) (List.length phrase)); [reflexivity | lia].
Qed.

(** C4. For a phrase no longer than the prefix length [CountOccurrences]
    returns, and what it returns is at least 1 and so never 0, on the
    source side and on the target side; when the cursor finds no entry
    for the phrase the source-side count is exactly 1. *)
Theorem CountOccurrences_floor (this : t) (isSource : bool) (phrase : sentence_t) :
  (forall s, in_int64 (DeserializeCount s)) ->
  (List.length phrase <= prefixLength this)%nat ->
  exists n,
    fst (CountOccurrences isSource phrase this) = Returned n /\ 1 <= n /\ n <> 0 /\
    (isSource = true -> NewGlobalCursor_Seek (db this) (prefixLength this) phrase = [] -> n = 1).
Proof.
  intros Hrange Hlen. unfold CountOccurrences. run_cpp.
  destruct (Nat.ltb_spec (prefixLength this) (List.length phrase)); [lia|].
  eexists. split; [reflexivity|].
  assert (Hc : in_int64
                 (if isSource
                  then cursor_loop (NewGlobalCursor_Seek (db this) (prefixLength this) phrase) 0
                  else DeserializeCount
                         (snd (db_Get (db this)
                                 (MakeCountKey (prefixLength this) phrase 0 (List.length phrase))
                                 EmptyString)))).
  { destruct isSource; [|apply Hrange].
    apply cursor_loop_range. unfold in_int64, int64_min, int64_max. lia. }
  pose proof (to_size_t_floor _ Hc) as Hfloor.
  repeat split; [exact Hfloor | lia |].
  intros -> ->. reflexivity.
Qed.

(** C10. [CountOccurrences] and a scan of the index with [NewIterator] and
    any number of calls of [Next] leave the [SuffixArray] as it was: the
    key-value store, the corpus storage and every other member are the
    same after the call as before. *)
Theorem queries_leave_index_unchanged (this : t) :
  (forall isSource phrase, snd (CountOccurrences isSource phrase this) = this) /\
  (forall calls outEntry, snd (FullScan.iterate calls outEntry this) = this).
Proof.
  split.
  - intros isSource phrase. unfold CountOccurrences. run_cpp.
    destruct (prefixLength this <? List.length phrase)%nat; reflexivity.
  - intros calls outEntry. reflexivity.
Qed.
End CountProperties.

(** ** Initialization *)

Section InitProperties.
Context `{DbKv} `{Env}.

(** C8, where the code falls short of it. A model path that is not a
    directory makes the first guard of the constructor throw
    [invalid_argument], before the index is opened. The constructor is
    declared [throw(index_exception, storage_exception)]: the exception is
    not one it lists, so no error of any kind reaches the caller, and no
    index error in particular; the program terminates. *)
Theorem new_invalid_model_path (modelPath : string) (prefixLength : nat)
    (gcTimeout : double) (gcBatchSize : nat) (prepareForBulkLoad : bool) :
  is_directory modelPath = false ->
  SuffixArray.new modelPath prefixLength gcTimeout gcBatchSize prepareForBulkLoad =
  Terminated (invalid_argument ("Invalid model path: " +:+ modelPath)).
Proof. intros Hdir. unfold SuffixArray.new. rewrite Hdir. reflexivity. Qed.

(** X21. The index error of the constructor: the directory is there and
    the engine does not open the index. The constructor throws an index error
    that carries the engine's status, before the storage is opened. *)
Lemma new_index_open_error (modelPath : string) (prefixLength : nat)
    (gcTimeout : double) (gcBatchSize : nat) (prepareForBulkLoad : bool) :
  is_directory modelPath = true ->
  ok (fst (DB_Open (SuffixArray.tuned_options prepareForBulkLoad)
                   (absolute_in modelPath "index"))) = false ->
  SuffixArray.new modelPath prefixLength gcTimeout gcBatchSize prepareForBulkLoad =
  Thrown (index_exception
            (ToString (fst (DB_Open (SuffixArray.tuned_options prepareForBulkLoad)
                                    (absolute_in modelPath "index"))))).
Proof.
  intros Hdir Hopen. unfold SuffixArray.new. rewrite Hdir. simpl.
  destruct (DB_Open _ _) as [status d]. simpl in *. rewrite Hopen. reflexivity.
Qed.
End InitProperties.

(** ** Batch indexing: the stream state *)

Section StreamsProperties.
Context `{DbKv} `{Env}.
Import SuffixArray.

Lemma PutBatch_entries_frame entries :
  forall sourcePrefixes targetCounts this r this',
    PutBatch_entries entries sourcePrefixes targetCounts this = (r, this') ->
    this' = set_storage (storage this') this.
Proof.
  induction entries as [|entry entries IH]; intros sp tc this r this'; simpl.
  - run_cpp. intros [= _ <-]. destruct this; reflexivity.
  - run_cpp.
    destruct (storage_Append _ _ _ _ _) as [[offset|e|e] s'].
    + intros Hrest. apply IH in Hrest. rewrite Hrest. destruct this; reflexivity.
    + intros [= _ <-]. destruct this; reflexivity.
    + intros [= _ <-]. destruct this; reflexivity.
Qed.

(** What [PutBatch] puts under the streams key is the serialization of the
    [streams] member as it is when [PutBatch] is called. *)
Lemma PutBatch_writeBatch_streams (batch : UpdateBatch) (this this' : t) (writeBatch : WriteBatch) :
  PutBatch_writeBatch batch this = (Returned writeBatch, this') ->
  In (WPut kStreamsKey (SerializeStreams (streams this))) writeBatch.
Proof.
  unfold PutBatch_writeBatch. run_cpp.
  destruct (PutBatch_entries _ _ _ _) as [[[sp tc]|e|e] this1] eqn:Hentries;
    [|discriminate..].
  apply PutBatch_entries_frame in Hentries.
  assert (Hs : streams this1 = streams this) by (rewrite Hentries; reflexivity).
  assert (Hb : openForBulkLoad this1 = openForBulkLoad this) by (rewrite Hentries; reflexivity).
  rewrite Hs.
  destruct (openForBulkLoad this1).
  - intros [= <- _]. apply in_or_app. right. now left.
  - destruct (storage_Flush _) as [[[]|e|e] s']; [|discriminate..].
    simpl. intros [= <- _].
    apply in_or_app. left. apply in_or_app. right. now left.
Qed.

(** After a successful [PutBatch] the [streams] member is the state of the
    batch. *)
Lemma PutBatch_streams_member (batch : UpdateBatch) (this this' : t) :
  PutBatch batch this = (Returned tt, this') -> streams this' = GetStreams batch.
Proof.
  unfold PutBatch. run_cpp.
  destruct (PutBatch_writeBatch _ _) as [[wb|e|e] this1]; simpl;
    [|destruct (index_or_storage_exception e); discriminate|discriminate].
  destruct (db_Write _ _) as [status d]. simpl.
  destruct (ok status); simpl; [|discriminate].
  intros [= <-]. reflexivity.
Qed.
End StreamsProperties.

(** ** The iterator *)

Section IteratorProperties.
Context `{DbKv} `{Env}.
Import IndexIterator.

(** C7, where the code falls short of it. On an iterator whose scan is not
    on a record and reports a fault, [Next] returns [false] and leaves
    everything as it is: a fault the engine reports when the scan is first
    positioned, or one [Next] has already thrown, ends the iteration as if
    the index were exhausted, and no index error is raised. *)
Theorem Next_on_faulted_scan (this : t) (outEntry : IndexEntry) :
  it_Valid (it this) = false ->
  ok (it_status (it this)) = false ->
  Next (this, outEntry) = (Returned false, (this, outEntry)).
Proof.
  destruct this as [L [st | st key value rest]]; simpl; [reflexivity | discriminate].
Qed.

(** A record of an unrecognized type is passed over: [Next] goes on with
    the records after it. *)
Lemma Next_loop_skips (L : nat) st key value rest outEntry :
  GetKeyTypeFromKey key L <> kSourcePrefixKeyType ->
  GetKeyTypeFromKey key L <> kTargetCountKeyType ->
  ok (it_status rest) = true ->
  Next_loop L (ItRec st key value rest) outEntry = Next_loop L rest outEntry.
Proof.
  intros Hs Ht Hok. simpl. unfold decode.
  destruct (Ascii.eqb_spec (GetKeyTypeFromKey key L) kSourcePrefixKeyType); [contradiction|].
  destruct (Ascii.eqb_spec (GetKeyTypeFromKey key L) kTargetCountKeyType); [contradiction|].
  rewrite Hok. reflexivity.
Qed.

(** A source-prefix record is reported with the domain and the words of
    its key, its decoded positions and their number. *)
Lemma Next_loop_source (L : nat) st key value rest outEntry :
  GetKeyTypeFromKey key L = kSourcePrefixKeyType ->
  ok (it_status rest) = true ->
  Next_loop L (ItRec st key value rest) outEntry =
  (Returned true,
   (rest, {| is_source := true;
             domain := GetDomainFromKey key L;
             words := GetWordsFromKey key L [];
             positions := PostingList.Deserialize value [];
             count := Z.of_nat (List.length (PostingList.Deserialize value [])) |})).
Proof.
  intros Hs Hok. simpl. unfold decode. rewrite Hs, Ascii.eqb_refl, Hok. reflexivity.
Qed.

(** A target-count record is reported with the words of its key, the
    decoded count, domain 0 and no positions. *)
Lemma Next_loop_target (L : nat) st key value rest outEntry :
  kSourcePrefixKeyType <> kTargetCountKeyType ->
  GetKeyTypeFromKey key L = kTargetCountKeyType ->
  ok (it_status rest) = true ->
  Next_loop L (ItRec st key value rest) outEntry =
  (Returned true,
   (rest, {| is_source := false;
             domain := 0;
             words := GetWordsFromKey key L [];
             positions := [];
             count := DeserializeCount value |})).
Proof.
  intros Htags Ht Hok. simpl. unfold decode. rewrite Ht.
  destruct (Ascii.eqb_spec kTargetCountKeyType kSourcePrefixKeyType); [congruence|].
  rewrite Ascii.eqb_refl, Hok. reflexivity.
Qed.

(** A fault the scan reports after moving past a record is thrown as an
    index error. *)
Lemma Next_loop_fault (L : nat) st key value rest outEntry :
  ok (it_status rest) = false ->
  fst (Next_loop L (ItRec st key value rest) outEntry) =
  Thrown (index_exception (ToString (it_status rest))).
Proof.
  intros Hok. simpl. destruct (decode L key value outEntry) as [e loop].
  rewrite Hok. reflexivity.
Qed.

(** An exhausted scan ends the iteration. *)
Lemma Next_loop_exhausted (L : nat) st outEntry :
  Next_loop L (ItEnd st) outEntry = (Returned false, (ItEnd st, outEntry)).
Proof. reflexivity. Qed.

Lemma scan_ok_status (scan : RocksIterator) :
  FullScan.scan_ok scan = true -> ok (it_status scan) = true.
Proof.
  destruct scan as [st | st key value rest]; simpl; [tauto|].
  intros Hok. now apply andb_prop in Hok as [Hst _].
Qed.

(** Over a scan without a fault, calling [Next] until it returns [false]
    takes at most one call more than there are records, throws nothing and
    reports the entries of the recognized records in the order of the
    scan. *)
Lemma drain_reported (L : nat) (scan : RocksIterator) :
  FullScan.scan_ok scan = true ->
  forall calls outEntry,
    (FullScan.scan_length scan < calls)%nat ->
    FullScan.drain calls ({| prefixLength := L; it := scan |}, outEntry) =
    Some (Returned (FullScan.reported L scan outEntry)).
Proof.
  induction scan as [st | st key value rest IH]; intros Hok calls outEntry Hcalls.
  - destruct calls as [|calls]; [simpl in Hcalls; lia | reflexivity].
  - simpl in Hok. apply andb_prop in Hok as [_ Hrest].
    destruct calls as [|calls]; [simpl in Hcalls; lia|]. simpl in Hcalls.
    pose proof (scan_ok_status rest Hrest) as Hst.
    specialize (IH Hrest).
    simpl. destruct (decode L key value outEntry) as [outEntry' loop]. rewrite Hst. simpl.
    destruct loop.
    + specialize (IH (S calls) outEntry' ltac:(lia)). simpl in IH. exact IH.
    + rewrite IH by lia. reflexivity.
Qed.
End IteratorProperties.

(** ** Strings *)

Lemma length_append (s1 s2 : string) :
  String.length (s1 +:+ s2) = (String.length s1 + String.length s2)%nat.
Proof. induction s1 as [|c s1 IH]; simpl; [reflexivity | now rewrite IH]. Qed.

Lemma append_String (c : ascii) (s1 s2 : string) : String c s1 +:+ s2 = String c (s1 +:+ s2).
Proof. reflexivity. Qed.

Lemma append_empty_r (s : string) : s +:+ EmptyString = s.
Proof. induction s as [|c s IH]; [reflexivity | now rewrite append_String, IH]. Qed.

Lemma append_assoc (s1 s2 s3 : string) : (s1 +:+ s2) +:+ s3 = s1 +:+ (s2 +:+ s3).
Proof. induction s1 as [|c s1 IH]; [reflexivity | now rewrite !append_String, IH]. Qed.

Lemma substring_append_l (s1 s2 : string) :
  forall n m, (n + m <= String.length s1)%nat -> substring n m (s1 +:+ s2) = substring n m s1.
Proof.
  induction s1 as [|c s1 IH]; intros n m Hnm; simpl in Hnm.
  - assert (n = 0%nat) by lia. assert (m = 0%nat) by lia. subst.
    destruct s2; reflexivity.
  - rewrite append_String. destruct n as [|n]; simpl.
    + destruct m as [|m]; [reflexivity|]. f_equal. apply IH. lia.
    + apply IH. lia.
Qed.

Lemma substring_append_r (s1 s2 : string) :
  forall n m, substring (String.length s1 + n) m (s1 +:+ s2) = substring n m s2.
Proof.
  induction s1 as [|c s1 IH]; intros n m; [reflexivity|].
  rewrite append_String. simpl. apply IH.
Qed.

Lemma map_seq_from {A} (f : nat -> A) (n : nat) :
  forall a, map f (seq a n) = map (fun i => f (a + i)%nat) (seq 0 n).
Proof.
  induction n as [|n IH]; intros a; [reflexivity|].
  simpl. rewrite Nat.add_0_r. f_equal.
  rewrite IH, <- seq_shift, map_map.
  apply map_ext. intros i. f_equal. lia.
Qed.

Lemma sum_app (l1 l2 : list Z) :
  fold_right Z.add 0 (l1 ++ l2) = fold_right Z.add 0 l1 + fold_right Z.add 0 l2.
Proof. induction l1 as [|z l1 IH]; simpl; lia. Qed.

(** ** Posting lists and merges *)

Section PostingListProperties.
Context `{DbKv}.
Import PostingList.

Lemma fragment_empty : fragment EmptyString.
Proof. unfold fragment. simpl. apply Nat.Div0.mod_0_l. Qed.

Lemma fragment_append (v1 v2 : string) : fragment v1 -> fragment v2 -> fragment (v1 +:+ v2).
Proof.
  unfold fragment. intros H1 H2. rewrite length_append.
  rewrite Nat.Div0.add_mod, H1, H2. simpl. apply Nat.Div0.mod_0_l.
Qed.

(** Decoding the concatenation of two fragments gives the postings of the
    first followed by the postings of the second. *)
Lemma Deserialize_append (v1 v2 : string) :
  (0 < kPostingRecordWidth)%nat -> fragment v1 ->
  Deserialize (v1 +:+ v2) [] = Deserialize v1 [] ++ Deserialize v2 [].
Proof.
  intros Hw Hf. unfold Deserialize, fragment in *. simpl.
  set (w := kPostingRecordWidth) in *.
  apply Nat.Div0.div_exact in Hf.
  set (k1 := (String.length v1 / w)%nat) in *.
  rewrite length_append.
  replace ((String.length v1 + String.length v2) / w)%nat
    with (k1 + String.length v2 / w)%nat.
  2:{ rewrite Hf, (Nat.mul_comm w k1), Nat.div_add_l by lia. reflexivity. }
  rewrite seq_app, map_app. f_equal.
  - apply map_ext_in. intros i Hi. apply in_seq in Hi. f_equal.
    apply substring_append_l. rewrite Hf. nia.
  - rewrite map_seq_from. apply map_ext. intros i. f_equal.
    replace ((0 + k1 + i) * w)%nat with (String.length v1 + i * w)%nat by (rewrite Hf; nia).
    apply substring_append_r.
Qed.
End PostingListProperties.

Section MergeOrderProperties.
Context `{DbKv}.
Import PostingList MergePositionOperator.

Lemma joined_app (vs1 vs2 : list string) : joined (vs1 ++ vs2) = joined vs1 +:+ joined vs2.
Proof.
  unfold joined. induction vs1 as [|v vs1 IH]; [reflexivity|].
  simpl. rewrite IH. symmetry. apply append_assoc.
Qed.

(** Under a source-prefix key every order of merges leaves the operands
    joined from left to right. *)
Lemma merge_all_source (key : string) (t : merge_order) :
  first_byte key = kSourcePrefixKeyType -> merge_all key t = Some (joined (operands t)).
Proof.
  intros Htag. induction t as [v | l IHl r IHr]; simpl.
  - now rewrite append_empty_r.
  - rewrite IHl, IHr. unfold Merge. rewrite Htag, Ascii.eqb_refl. simpl.
    now rewrite joined_app.
Qed.

Lemma Deserialize_joined (values : list string) :
  (0 < kPostingRecordWidth)%nat -> Forall fragment values ->
  Deserialize (joined values) [] = flat_map (fun v => Deserialize v []) values.
Proof.
  intros Hw. induction 1 as [|v vs Hv Hvs IH]; simpl.
  - unfold Deserialize. simpl. now rewrite Nat.Div0.div_0_l.
  - rewrite Deserialize_append by assumption. f_equal. exact IH.
Qed.

(** Under a target-count key every order of merges of serialized counts
    leaves the serialized 64-bit sum of the counts. *)
Lemma merge_all_counts (key : string) (t : merge_order) :
  kSourcePrefixKeyType <> kTargetCountKeyType ->
  first_byte key = kTargetCountKeyType ->
  (forall z, in_int64 z -> DeserializeCount (SerializeCount z) = z) ->
  forall counts,
    operands t = map SerializeCount counts -> Forall in_int64 counts ->
    merge_all key t = Some (SerializeCount (int64_wrap (fold_right Z.add 0 counts))).
Proof.
  intros Htags Htag Hround.
  induction t as [v | l IHl r IHr]; intros counts Hops Hin; simpl in *.
  - destruct counts as [|z [|z' counts]]; try discriminate.
    injection Hops as ->. simpl. inversion Hin; subst.
    rewrite Z.add_0_r, int64_wrap_id by assumption. reflexivity.
  - symmetry in Hops. apply map_eq_app in Hops as (cl & cr & -> & Hl & Hr).
    apply Forall_app in Hin as [Hinl Hinr].
    rewrite (IHl cl), (IHr cr) by (assumption || now symmetry).
    unfold Merge. rewrite Htag.
    destruct (Ascii.eqb_spec kTargetCountKeyType kSourcePrefixKeyType); [congruence|].
    rewrite Ascii.eqb_refl. unfold MergeCounts.
    rewrite !Hround by apply int64_wrap_range.
    unfold int64_add. rewrite int64_wrap_add_l, int64_wrap_add_r.
    do 3 f_equal. rewrite sum_app. lia.
Qed.

(** C3. Merging is associative and commutative up to what the values
    denote. Three posting-list fragments merged pairwise under a
    source-prefix key, in any order and any grouping, give an encoding
    whose decoded postings are a permutation of the postings of the three
    fragments, so any two ways denote the same multiset. Three counts
    merged under a target-count key give the serialized 64-bit sum
    [a + b + c] in either grouping, two counts give the same value in either
    order, and the 64-bit sum is [a + b + c] itself when that is an
    [int64_t]. *)
Theorem merge_any_order_any_grouping
    (skey ckey : string) (A B C : string) (t1 t2 : merge_order) (a b c : Z) :
  (0 < kPostingRecordWidth)%nat ->
  kSourcePrefixKeyType <> kTargetCountKeyType ->
  first_byte skey = kSourcePrefixKeyType ->
  first_byte ckey = kTargetCountKeyType ->
  fragment A -> fragment B -> fragment C ->
  Permutation (operands t1) [A; B; C] ->
  Permutation (operands t2) [A; B; C] ->
  (forall z, in_int64 z -> DeserializeCount (SerializeCount z) = z) ->
  in_int64 a -> in_int64 b -> in_int64 c ->
  (exists v1 v2,
      merge_all skey t1 = Some v1 /\ merge_all skey t2 = Some v2 /\
      Permutation (Deserialize v1 []) (Deserialize v2 []) /\
      Permutation (Deserialize v1 [])
                  (Deserialize A [] ++ Deserialize B [] ++ Deserialize C [])) /\
  merge_all ckey (Merges (Merges (Operand (SerializeCount a)) (Operand (SerializeCount b)))
                         (Operand (SerializeCount c)))
  = Some (SerializeCount (int64_add (int64_add a b) c)) /\
  merge_all ckey (Merges (Operand (SerializeCount a))
                         (Merges (Operand (SerializeCount b)) (Operand (SerializeCount c))))
  = Some (SerializeCount (int64_add (int64_add a b) c)) /\
  merge_all ckey (Merges (Operand (SerializeCount a)) (Operand (SerializeCount b)))
  = merge_all ckey (Merges (Operand (SerializeCount b)) (Operand (SerializeCount a))) /\
  (in_int64 (a + b + c) -> int64_add (int64_add a b) c = a + b + c).
Proof.
  intros Hw Htags Hs Hc HA HB HC Hp1 Hp2 Hround Ha Hb Hc'.
  assert (HABC : Forall fragment [A; B; C])
    by (repeat (apply List.Forall_cons; [assumption|]); apply List.Forall_nil).
  assert (H1 : Forall fragment (operands t1))
    by (eapply Permutation_Forall; [symmetry; exact Hp1 | exact HABC]).
  assert (H2 : Forall fragment (operands t2))
    by (eapply Permutation_Forall; [symmetry; exact Hp2 | exact HABC]).
  assert (Hsum : int64_add (int64_add a b) c = int64_wrap (a + b + c))
    by (unfold int64_add; now rewrite int64_wrap_add_l).
  split; [|repeat split].
  - exists (joined (operands t1)), (joined (operands t2)).
    rewrite !merge_all_source by assumption.
    rewrite !Deserialize_joined by assumption.
    repeat split.
    + apply Permutation_flat_map. now rewrite Hp1, Hp2.
    + rewrite Hp1. simpl. now rewrite app_nil_r.
  - rewrite Hsum.
    rewrite (merge_all_counts ckey _ Htags Hc Hround [a; b; c]);
      [do 3 f_equal; simpl; lia | reflexivity | repeat (apply List.Forall_cons; [assumption|]); apply List.Forall_nil].
  - rewrite Hsum.
    rewrite (merge_all_counts ckey _ Htags Hc Hround [a; b; c]);
      [do 3 f_equal; simpl; lia | reflexivity | repeat (apply List.Forall_cons; [assumption|]); apply List.Forall_nil].
  - rewrite (merge_all_counts ckey _ Htags Hc Hround [a; b]);
      [| reflexivity | repeat (apply List.Forall_cons; [assumption|]); apply List.Forall_nil].
    rewrite (merge_all_counts ckey _ Htags Hc Hround [b; a]);
      [| reflexivity | repeat (apply List.Forall_cons; [assumption|]); apply List.Forall_nil].
    do 3 f_equal. simpl. lia.
  - intros Hin. rewrite Hsum. now apply int64_wrap_id.
Qed.
End MergeOrderProperties.

(** ** Batch indexing: the prefix loops *)

Lemma fold_left_flat_map {A B C} (f : A -> C -> A) (g : B -> list C) (l : list B) :
  forall a, fold_left f (flat_map g l) a = fold_left (fun a x => fold_left f (g x) a) l a.
Proof.
  induction l as [|x l IH]; intros a; simpl; [reflexivity|].
  now rewrite fold_left_app, IH.
Qed.

Lemma fold_left_pointwise {A B} (f g : A -> B -> A) (l : list B) :
  (forall a x, In x l -> f a x = g a x) -> forall a, fold_left f l a = fold_left g l a.
Proof.
  induction l as [|x l IH]; intros Hfg a; simpl; [reflexivity|].
  rewrite Hfg by now left. apply IH. intros a' x' Hx'. apply Hfg. now right.
Qed.



Section LoopProperties.
Context `{DbKv} `{Env}.
Import SuffixArray.

(** The inner loop with its [break] visits the lengths from [a] on that
    still fit in the sentence. *)
Lemma AddPrefixesToBatch_lengths_spans L domain sentence location start n :
  forall a outBatch,
    AddPrefixesToBatch_lengths L domain sentence location start (seq a n) outBatch =
    fold_left (accumulate_posting L domain sentence location)
      (map (pair start) (seq a (Nat.min n (List.length sentence + 1 - (start + a))))) outBatch.
Proof.
  induction n as [|n IH]; intros a outBatch; [reflexivity|].
  simpl seq at 1. simpl AddPrefixesToBatch_lengths.
  destruct (Nat.ltb_spec (List.length sentence) (start + a)) as [Hbreak|Hfits].
  - replace (List.length sentence + 1 - (start + a))%nat with 0%nat by lia.
    rewrite Nat.min_0_r. reflexivity.
  - replace (Nat.min (S n) (List.length sentence + 1 - (start + a)))
      with (S (Nat.min n (List.length sentence + 1 - (start + S a)))) by lia.
    simpl. apply IH.
Qed.

Lemma AddTargetCountsToBatch_lengths_spans L sentence start n :
  forall a outBatch,
    AddTargetCountsToBatch_lengths L sentence start (seq a n) outBatch =
    fold_left (increment_count L sentence)
      (map (pair start) (seq a (Nat.min n (List.length sentence + 1 - (start + a))))) outBatch.
Proof.
  induction n as [|n IH]; intros a outBatch; [reflexivity|].
  simpl seq at 1. simpl AddTargetCountsToBatch_lengths.
  destruct (Nat.ltb_spec (List.length sentence) (start + a)) as [Hbreak|Hfits].
  - replace (List.length sentence + 1 - (start + a))%nat with 0%nat by lia.
    rewrite Nat.min_0_r. reflexivity.
  - replace (Nat.min (S n) (List.length sentence + 1 - (start + a)))
      with (S (Nat.min n (List.length sentence + 1 - (start + S a)))) by lia.
    simpl. apply IH.
Qed.

(** The two loops of [AddPrefixesToBatch] accumulate one posting for each
    span, in the order of [prefix_spans]. *)
Lemma AddPrefixesToBatch_spans L domain sentence location outBatch :
  AddPrefixesToBatch L domain sentence location outBatch =
  fold_left (accumulate_posting L domain sentence location)
            (prefix_spans L (List.length sentence)) outBatch.
Proof.
  unfold AddPrefixesToBatch, prefix_spans. rewrite fold_left_flat_map.
  apply fold_left_pointwise. intros out start _.
  rewrite AddPrefixesToBatch_lengths_spans. do 3 f_equal. lia.
Qed.

Lemma AddTargetCountsToBatch_spans L sentence outBatch :
  AddTargetCountsToBatch L sentence outBatch =
  fold_left (increment_count L sentence) (prefix_spans L (List.length sentence)) outBatch.
Proof.
  unfold AddTargetCountsToBatch, prefix_spans. rewrite fold_left_flat_map.
  apply fold_left_pointwise. intros out start _.
  rewrite AddTargetCountsToBatch_lengths_spans. do 3 f_equal. lia.
Qed.

(** What a run of accumulations leaves under one key. *)
Lemma accumulate_posting_lookup L domain sentence location spans key :
  forall outBatch,
    default [] (fold_left (accumulate_posting L domain sentence location) spans outBatch !! key) =
    default [] (outBatch !! key) ++
    map (posting_at domain location)
        (filter (fun span => MakePrefixKey L domain sentence (fst span) (snd span) = key) spans).
Proof.
  induction spans as [|span spans IH]; intros outBatch; simpl.
  - now rewrite app_nil_r.
  - rewrite IH. unfold accumulate_posting.
    destruct (decide (MakePrefixKey L domain sentence (fst span) (snd span) = key)) as [Hk|Hk].
    + rewrite filter_cons_True by exact Hk. rewrite Hk, lookup_insert_eq. simpl.
      unfold PostingList.Append. rewrite <- app_assoc. reflexivity.
    + rewrite filter_cons_False by exact Hk. now rewrite lookup_insert_ne.
Qed.

Lemma increment_count_lookup L sentence spans key :
  forall outBatch,
    default 0 (fold_left (increment_count L sentence) spans outBatch !! key) =
    incremented
      (List.length (filter (fun span => MakeCountKey L sentence (fst span) (snd span) = key) spans))
      (default 0 (outBatch !! key)).
Proof.
  induction spans as [|span spans IH]; intros outBatch; simpl; [reflexivity|].
  rewrite IH. unfold increment_count.
  destruct (decide (MakeCountKey L sentence (fst span) (snd span) = key)) as [Hk|Hk].
  - rewrite filter_cons_True by exact Hk. rewrite Hk, lookup_insert_eq.
    unfold incremented. cbn [List.length default from_option].
    now rewrite Nat.iter_succ_r.
  - rewrite filter_cons_False by exact Hk. now rewrite lookup_insert_ne.
Qed.


End LoopProperties.

(** ** Batch indexing: one merge for each key *)

Section BatchProperties.
Context `{DbKv} `{Env}.
Import SuffixArray.

Lemma accumulate_posting_keys L domain sentence location spans key :
  forall outBatch,
    is_Some (fold_left (accumulate_posting L domain sentence location) spans outBatch !! key) ->
    is_Some (outBatch !! key) \/
    exists start length, key = MakePrefixKey L domain sentence start length.
Proof.
  induction spans as [|span spans IH]; intros outBatch Hsome; simpl in *; [now left|].
  apply IH in Hsome as [Hsome | Hkey]; [|now right].
  unfold accumulate_posting in Hsome.
  destruct (decide (MakePrefixKey L domain sentence (fst span) (snd span) = key)) as [Hk|Hk].
  - right. exists (fst span), (snd span). now symmetry.
  - left. now rewrite lookup_insert_ne in Hsome.
Qed.

Lemma increment_count_keys L sentence spans key :
  forall outBatch,
    is_Some (fold_left (increment_count L sentence) spans outBatch !! key) ->
    is_Some (outBatch !! key) \/ exists start length, key = MakeCountKey L sentence start length.
Proof.
  induction spans as [|span spans IH]; intros outBatch Hsome; simpl in *; [now left|].
  apply IH in Hsome as [Hsome | Hkey]; [|now right].
  unfold increment_count in Hsome.
  destruct (decide (MakeCountKey L sentence (fst span) (snd span) = key)) as [Hk|Hk].
  - right. exists (fst span), (snd span). now symmetry.
  - left. now rewrite lookup_insert_ne in Hsome.
Qed.

(** The two maps after the loop of [PutBatch] over the entries: under
    every key, the postings of all entries with that key, and the count
    incremented once for every occurrence in a target sentence. *)
Lemma PutBatch_entries_maps entries :
  forall sourcePrefixes targetCounts this sourcePrefixes' targetCounts' this',
    PutBatch_entries entries sourcePrefixes targetCounts this =
      (Returned (sourcePrefixes', targetCounts'), this') ->
    let L := prefixLength this in
    (forall key,
       default [] (sourcePrefixes' !! key) =
       default [] (sourcePrefixes !! key) ++
       batch_postings L entries (appended_offsets (storage this) entries) key) /\
    (forall key,
       default 0 (targetCounts' !! key) =
       incremented (batch_occurrences L entries key) (default 0 (targetCounts !! key))) /\
    (forall key, is_Some (sourcePrefixes' !! key) ->
       is_Some (sourcePrefixes !! key) \/
       exists domain sentence start length, key = MakePrefixKey L domain sentence start length) /\
    (forall key, is_Some (targetCounts' !! key) ->
       is_Some (targetCounts !! key) \/
       exists sentence start length, key = MakeCountKey L sentence start length).
Proof.
  induction entries as [|entry entries IH]; intros sp tc this sp' tc' this'; simpl.
  - run_cpp. intros [= <- <- <-]. unfold batch_postings, batch_occurrences. simpl.
    repeat split; intros key; [now rewrite app_nil_r | tauto | tauto].
  - run_cpp.
    destruct (storage_Append _ _ _ _ _) as [[offset|e|e] s'] eqn:Happend; [|discriminate..].
    intros Hrest. apply IH in Hrest as (Hsp & Htc & Hspk & Htck). simpl in *.
    repeat split; intros key.
    + rewrite Hsp, AddPrefixesToBatch_spans, accumulate_posting_lookup.
      unfold batch_postings. simpl. rewrite <- app_assoc. reflexivity.
    + rewrite Htc, AddTargetCountsToBatch_spans, increment_count_lookup.
      unfold batch_occurrences, incremented. simpl.
      rewrite (Nat.add_comm (target_occurrences _ _ _)), Nat.iter_add. reflexivity.
    + intros Hsome. apply Hspk in Hsome as [Hsome | Hkey]; [|now right].
      rewrite AddPrefixesToBatch_spans in Hsome.
      apply accumulate_posting_keys in Hsome as [Hsome | (start & length & Hkey)];
        [now left | right; eauto].
    + intros Hsome. apply Htck in Hsome as [Hsome | Hkey]; [|now right].
      rewrite AddTargetCountsToBatch_spans in Hsome.
      apply increment_count_keys in Hsome as [Hsome | (start & length & Hkey)];
        [now left | right; eauto].
Qed.

(** The write batch of [PutBatch]: one merge for each key of the first
    map, one merge for each key of the second, then only puts. *)
Lemma PutBatch_writeBatch_shape (batch : UpdateBatch) (this this' : t) (writeBatch : WriteBatch) :
  PutBatch_writeBatch batch this = (Returned writeBatch, this') ->
  exists sourcePrefixes targetCounts puts this1,
    PutBatch_entries (data batch) ∅ ∅ this = (Returned (sourcePrefixes, targetCounts), this1) /\
    Forall is_put puts /\
    writeBatch =
      map (fun prefix => WMerge (fst prefix) (PostingList.Serialize (snd prefix)))
          (map_to_list sourcePrefixes) ++
      map (fun count => WMerge (fst count) (SerializeCount (snd count)))
          (map_to_list targetCounts) ++ puts.
Proof.
  unfold PutBatch_writeBatch. run_cpp.
  destruct (PutBatch_entries _ _ _ _) as [[[sp tc]|e|e] this1] eqn:Hentries;
    [|discriminate..].
  assert (Hdel : Forall is_put
                   (map (fun domain => WPut (MakeDomainDeletionKey domain) EmptyString)
                        (elements (deletions batch)))).
  { apply List.Forall_forall. intros op Hop. apply in_map_iff in Hop as (d & <- & _). exact I. }
  destruct (openForBulkLoad this1).
  - intros [= <- _]. eexists sp, tc, _, this1. split; [reflexivity|]. split.
    2:{ rewrite <- !app_assoc. reflexivity. }
    apply Forall_app. split; [exact Hdel|]. repeat constructor.
  - destruct (storage_Flush _) as [[[]|e|e] s']; [|discriminate..].
    simpl. intros [= <- _]. eexists sp, tc, _, this1. split; [reflexivity|]. split.
    2:{ rewrite <- !app_assoc. reflexivity. }
    apply Forall_app. split; [exact Hdel|]. repeat constructor.
Qed.

Lemma merge_keys_puts (puts : WriteBatch) : Forall is_put puts -> merge_keys puts = [].
Proof.
  induction 1 as [|op puts Hop _ IH]; [reflexivity|].
  destruct op; [exact IH | contradiction].
Qed.

Lemma merge_keys_merges {V} (f : V -> string) (l : list (string * V)) :
  merge_keys (map (fun kv => WMerge (fst kv) (f (snd kv))) l) = map fst l.
Proof. induction l as [|kv l IH]; simpl; [reflexivity | now rewrite IH]. Qed.

(** C9. The write batch [PutBatch] builds has at most one merge for each
    key: the occurrences of a key in the batch are aggregated in memory
    first. The value merged under a source-prefix key is the serialized
    list of all postings of the batch under that key; the value merged
    under a target-count key is the serialized count of all occurrences of
    the batch under that key. *)
Theorem PutBatch_one_merge_per_key (batch : UpdateBatch) (this this' : t)
    (writeBatch : WriteBatch) :
  (forall L domain sentence start length L' sentence' start' length',
     MakePrefixKey L domain sentence start length <> MakeCountKey L' sentence' start' length') ->
  PutBatch_writeBatch batch this = (Returned writeBatch, this') ->
  let L := prefixLength this in
  let offsets := appended_offsets (storage this) (data batch) in
  NoDup (merge_keys writeBatch) /\
  forall key value,
    In (WMerge key value) writeBatch ->
    ((exists domain sentence start length, key = MakePrefixKey L domain sentence start length) /\
     value = PostingList.Serialize (batch_postings L (data batch) offsets key)) \/
    ((exists sentence start length, key = MakeCountKey L sentence start length) /\
     value = SerializeCount (incremented (batch_occurrences L (data batch) key) 0)).
Proof.
  intros Hdisjoint Hwb L offsets.
  apply PutBatch_writeBatch_shape in Hwb
    as (sp & tc & puts & this1 & Hentries & Hputs & ->).
  apply PutBatch_entries_maps in Hentries as (Hsp & Htc & Hspk & Htck).
  fold L in Hsp, Htc, Hspk, Htck. fold offsets in Hsp.
  assert (Hspk' : forall key, is_Some (sp !! key) ->
            exists domain sentence start length, key = MakePrefixKey L domain sentence start length).
  { intros key Hsome. apply Hspk in Hsome as [Hsome|Hkey]; [|exact Hkey].
    rewrite lookup_empty in Hsome. now destruct Hsome. }
  assert (Htck' : forall key, is_Some (tc !! key) ->
            exists sentence start length, key = MakeCountKey L sentence start length).
  { intros key Hsome. apply Htck in Hsome as [Hsome|Hkey]; [|exact Hkey].
    rewrite lookup_empty in Hsome. now destruct Hsome. }
  split.
  - unfold merge_keys. rewrite !flat_map_app. fold (merge_keys puts).
    rewrite (merge_keys_puts puts Hputs), app_nil_r.
    fold (merge_keys (map (fun prefix => WMerge (fst prefix) (PostingList.Serialize (snd prefix)))
                          (map_to_list sp))).
    fold (merge_keys (map (fun count => WMerge (fst count) (SerializeCount (snd count)))
                          (map_to_list tc))).
    rewrite !merge_keys_merges.
    apply NoDup_app. split; [apply NoDup_fst_map_to_list|].
    split; [|apply NoDup_fst_map_to_list].
    intros key Hin1 Hin2.
    apply list_elem_of_fmap in Hin1 as ([k1 pl] & -> & Hin1).
    apply list_elem_of_fmap in Hin2 as ([k2 c] & Hk & Hin2). simpl in *. subst k2.
    apply elem_of_map_to_list in Hin1. apply elem_of_map_to_list in Hin2.
    destruct (Hspk' k1) as (d & s & i & n & Hk1); [eauto|].
    destruct (Htck' k1) as (s' & i' & n' & Hk2); [eauto|].
    apply (Hdisjoint L d s i n L s' i' n'). congruence.
  - intros key value Hin.
    apply in_app_or in Hin as [Hin|Hin]; [|apply in_app_or in Hin as [Hin|Hin]].
    + left. apply in_map_iff in Hin as ([k pl] & [= <- <-] & Hin). simpl.
      apply list_elem_of_In, elem_of_map_to_list in Hin.
      split; [apply Hspk'; eauto|].
      f_equal. specialize (Hsp k). unfold PostingList.t in *.
      rewrite Hin, lookup_empty in Hsp. exact Hsp.
    + right. apply in_map_iff in Hin as ([k c] & [= <- <-] & Hin). simpl.
      apply list_elem_of_In, elem_of_map_to_list in Hin.
      split; [apply Htck'; eauto|].
      f_equal. specialize (Htc k). rewrite Hin, lookup_empty in Htc. exact Htc.
    + rewrite List.Forall_forall in Hputs. apply Hputs in Hin. contradiction.
Qed.
End BatchProperties.

(** ** The sample instance *)

Section SampleProperties.
Import Sample.

Lemma sample_decode_encode_le (n : nat) :
  forall z, decode_le (encode_le n z) = z mod 256 ^ Z.of_nat n.
Proof.
  induction n as [|n IH]; intros z.
  - simpl. now rewrite Z.mod_1_r.
  - cbn [encode_le decode_le]. rewrite IH.
    pose proof (Z.mod_pos_bound z 256 ltac:(lia)) as Hb.
    rewrite N_ascii_embedding by lia. rewrite Z2N.id by lia.
    rewrite Nat2Z.inj_succ, Z.pow_succ_r by lia.
    rewrite Z.rem_mul_r by lia. reflexivity.
Qed.

Lemma sample_length_encode_le (n : nat) : forall z, String.length (encode_le n z) = n.
Proof. induction n as [|n IH]; intros z; simpl; [reflexivity | now rewrite IH]. Qed.

(** The sample counts are fixed-width signed 64-bit integers: every
    [int64_t] comes back from its serialization. *)
Lemma sample_count_roundtrip (z : Z) :
  in_int64 z -> @DeserializeCount codec (@SerializeCount codec z) = z.
Proof.
  intros Hz. cbn [DeserializeCount SerializeCount codec].
  rewrite sample_length_encode_le. simpl Nat.eqb. cbv iota.
  rewrite sample_decode_encode_le.
  unfold int64_wrap. change (256 ^ Z.of_nat 8) with (2 ^ 64).
  rewrite Zplus_mod_idemp_l.
  unfold in_int64, int64_min, int64_max in Hz. rewrite Z.mod_small; lia.
Qed.

Lemma sample_count_range (s : string) : in_int64 (@DeserializeCount codec s).
Proof.
  cbn [DeserializeCount codec]. destruct (String.length s =? 8)%nat.
  - apply int64_wrap_range.
  - unfold in_int64, int64_min, int64_max. lia.
Qed.

Lemma sample_tags_differ : @kSourcePrefixKeyType codec <> @kTargetCountKeyType codec.
Proof. discriminate. Qed.

(** A sample prefix key and a sample count key differ in their tag. *)
Lemma sample_keys_disjoint L domain sentence start length L' sentence' start' length' :
  @MakePrefixKey codec L domain sentence start length <>
  @MakeCountKey codec L' sentence' start' length'.
Proof. cbn [MakePrefixKey MakeCountKey codec]. intros Heq. discriminate Heq. Qed.
End SampleProperties.

(** ** The properties on the sample index *)

Section SampleRuns.
Import Sample.

(** C1, where the code falls short of it. [PutBatch] on an index whose
    stream state is [[1]], with a batch whose resulting state is [[2]],
    succeeds; the one value its write batch puts under the streams key,
    and the value the store holds there after the commit, is the
    serialization of [[1]], the state before the batch, while the
    [streams] member becomes [[2]]. *)
Theorem PutBatch_persists_previous_streams :
  fst (SuffixArray.PutBatch batch0 sa0) = Returned tt /\
  SuffixArray.streams (snd (SuffixArray.PutBatch batch0 sa0)) = GetStreams batch0 /\
  (exists writeBatch,
      fst (SuffixArray.PutBatch_writeBatch batch0 sa0) = Returned writeBatch /\
      put_values SuffixArray.kStreamsKey writeBatch =
        [SerializeStreams (SuffixArray.streams sa0)]) /\
  SuffixArray.db (snd (SuffixArray.PutBatch batch0 sa0)) !! SuffixArray.kStreamsKey =
    Some (SerializeStreams (SuffixArray.streams sa0)) /\
  SerializeStreams (SuffixArray.streams sa0) <> SerializeStreams (GetStreams batch0).
Proof.
  split; [vm_compute; reflexivity|].
  split; [vm_compute; reflexivity|].
  split; [eexists; split; vm_compute; reflexivity|].
  split; [vm_compute; reflexivity|].
  vm_compute. discriminate.
Qed.

(** ["/missing"] is not a directory, and the constructor does not fail with
    an index error there. *)
Lemma new_missing_directory_no_index_error :
  is_directory "/missing" = false /\
  forall what, SuffixArray.new "/missing" 3 0 10 false <> Thrown (index_exception what).
Proof.
  split; [reflexivity|]. intros what.
  match goal with
  | |- ?r <> _ =>
      change r with (@Terminated SuffixArray.t
                       (invalid_argument "Invalid model path: /missing"))
  end.
  discriminate.
Qed.

Lemma new_invalid_model_path_witness :
  is_directory "/missing" = false /\
  SuffixArray.new "/missing" 3 0 10 false =
  Terminated (invalid_argument "Invalid model path: /missing").
Proof.
  split; [reflexivity|].
  apply (@new_invalid_model_path codec engine "/missing" 3%nat 0 10%nat false). reflexivity.
Defined.

Lemma Merge_by_key_tag_witness :
  kSourcePrefixKeyType <> kTargetCountKeyType /\
  MergePositionOperator.Merge (MakeCountKey 3 [7; 8] 0 2)
    (Some (SerializeCount 1)) (SerializeCount 1) = Merged (SerializeCount 2).
Proof.
  split; [exact sample_tags_differ|].
  destruct (Merge_by_key_tag (MakeCountKey 3 [7; 8] 0 2)
              (Some (SerializeCount 1)) (SerializeCount 1) sample_tags_differ)
    as (_ & Hcount & _).
  rewrite Hcount by reflexivity. reflexivity.
Defined.

Lemma CountOccurrences_long_phrase_witness :
  (SuffixArray.prefixLength sa0 < List.length [5; 9; 12; 20])%nat /\
  fst (SuffixArray.CountOccurrences true [5; 9; 12; 20] sa0) = Returned 1.
Proof.
  split; [simpl; lia|].
  apply (CountOccurrences_long_phrase sa0 true [5; 9; 12; 20]). simpl. lia.
Defined.

Lemma CountOccurrences_floor_witness :
  (List.length [7; 8] <= SuffixArray.prefixLength sa0)%nat /\
  exists n,
    fst (SuffixArray.CountOccurrences false [7; 8] sa0) = Returned n /\ 1 <= n /\ n <> 0 /\
    (false = true ->
     NewGlobalCursor_Seek (SuffixArray.db sa0) (SuffixArray.prefixLength sa0) [7; 8] = [] ->
     n = 1).
Proof.
  split; [simpl; lia|].
  apply (CountOccurrences_floor sa0 false [7; 8] sample_count_range). simpl. lia.
Defined.

Lemma Next_on_faulted_scan_witness :
  ok IOError = false /\
  IndexIterator.Next
    ({| IndexIterator.prefixLength := 3; IndexIterator.it := ItEnd IOError |}, entry0) =
  (Returned false,
   ({| IndexIterator.prefixLength := 3; IndexIterator.it := ItEnd IOError |}, entry0)).
Proof.
  split; [reflexivity|].
  apply (Next_on_faulted_scan
           {| IndexIterator.prefixLength := 3; IndexIterator.it := ItEnd IOError |} entry0);
    reflexivity.
Defined.

Lemma merge_any_order_any_grouping_witness :
  merge_all (MakeCountKey 3 [7; 8] 0 2)
    (Merges (Merges (Operand (SerializeCount 1)) (Operand (SerializeCount 2)))
            (Operand (SerializeCount 3)))
  = Some (SerializeCount 6) /\
  exists v1 v2,
    merge_all (MakePrefixKey 3 1 [5; 9] 0 2)
      (Merges (Merges (Operand fragmentA) (Operand fragmentB)) (Operand fragmentC)) = Some v1 /\
    merge_all (MakePrefixKey 3 1 [5; 9] 0 2)
      (Merges (Operand fragmentC) (Merges (Operand fragmentB) (Operand fragmentA))) = Some v2 /\
    Permutation (PostingList.Deserialize v1 []) (PostingList.Deserialize v2 []).
Proof.
  assert (Hi : forall z, 0 <= z <= 10 -> in_int64 z)
    by (unfold in_int64, int64_min, int64_max; lia).
  destruct (merge_any_order_any_grouping
              (MakePrefixKey 3 1 [5; 9] 0 2) (MakeCountKey 3 [7; 8] 0 2)
              fragmentA fragmentB fragmentC
              (Merges (Merges (Operand fragmentA) (Operand fragmentB)) (Operand fragmentC))
              (Merges (Operand fragmentC) (Merges (Operand fragmentB) (Operand fragmentA)))
              1 2 3)
    as ((v1 & v2 & H1 & H2 & Hperm & _) & Hsum & _).
  - simpl. lia.
  - exact sample_tags_differ.
  - reflexivity.
  - reflexivity.
  - reflexivity.
  - reflexivity.
  - reflexivity.
  - reflexivity.
  - simpl. apply perm_trans with [fragmentB; fragmentC; fragmentA]; [apply perm_swap|].
    apply perm_trans with [fragmentB; fragmentA; fragmentC];
      [apply perm_skip, perm_swap | apply perm_swap].
  - exact sample_count_roundtrip.
  - apply Hi. lia.
  - apply Hi. lia.
  - apply Hi. lia.
  - split; [exact Hsum | exists v1, v2; auto].
Defined.

Lemma PutBatch_one_merge_per_key_witness :
  exists writeBatch,
    fst (SuffixArray.PutBatch_writeBatch batch0 sa0) = Returned writeBatch /\
    List.length (merge_keys writeBatch) = 9%nat /\
    NoDup (merge_keys writeBatch).
Proof.
  assert (Hlen : exists writeBatch,
             fst (SuffixArray.PutBatch_writeBatch batch0 sa0) = Returned writeBatch /\
             List.length (merge_keys writeBatch) = 9%nat)
    by (eexists; split; vm_compute; reflexivity).
  destruct Hlen as (writeBatch & Hfst & Hlen).
  destruct (SuffixArray.PutBatch_writeBatch batch0 sa0) as [r this'] eqn:Hrun.
  simpl in Hfst. subst r.
  exists writeBatch. split; [reflexivity|]. split; [exact Hlen|].
  exact (proj1 (PutBatch_one_merge_per_key batch0 sa0 this' writeBatch
                  sample_keys_disjoint Hrun)).
Defined.
End SampleRuns.

(** * More of the code *)

(** ** Batch indexing and compaction: outcomes *)

Section BatchOutcomes.
Context `{DbKv} `{Env}.
Import SuffixArray.

Lemma PutBatch_writeBatch_frame (batch : UpdateBatch) (this : t) :
  snd (PutBatch_writeBatch batch this) =
  set_storage (storage (snd (PutBatch_writeBatch batch this))) this.
Proof.
  unfold PutBatch_writeBatch. run_cpp.
  destruct (PutBatch_entries _ _ _ _) as [[[sp tc]|e|e] this1] eqn:He;
    apply PutBatch_entries_frame in He; simpl; [|exact He..].
  destruct (openForBulkLoad this1); simpl; [exact He|].
  destruct (storage_Flush _) as [[[]|e|e] s']; simpl; rewrite He; reflexivity.
Qed.

Lemma PutBatch_unfold (batch : UpdateBatch) (this : t) :
  PutBatch batch this =
  match PutBatch_writeBatch batch this with
  | (Returned writeBatch, this1) =>
      let '(status, d) := db_Write (db this1) writeBatch in
      if ok status
      then (Returned tt,
            set_garbageCollector (MarkForDeletion (garbageCollector this1) (deletions batch))
              (set_streams (GetStreams batch) (set_db d this1)))
      else (Thrown (index_exception ("Unable to write to index: " +:+ ToString status)),
            set_db d this1)
  | (Thrown e, this1) =>
      (if index_or_storage_exception e then Thrown e else Terminated e, this1)
  | (Terminated e, this1) => (Terminated e, this1)
  end.
Proof.
  unfold PutBatch. run_cpp.
  destruct (PutBatch_writeBatch batch this) as [[wb|e|e] this1]; [|reflexivity..].
  destruct (db_Write _ _) as [status d]. simpl.
  destruct (ok status); reflexivity.
Qed.

(** X1. Whatever [PutBatch] does, the stream state and the garbage
    collector move together: after a call that returns, [streams] is the
    state of the batch and the deleted domains have been handed to the
    collector; after a call that throws, whether from the storage or from the
    commit, both are what they were, as they are when the program ends on an
    exception [PutBatch] does not declare. *)
Theorem PutBatch_members_by_outcome (batch : UpdateBatch) (this : t) :
  match fst (PutBatch batch this) with
  | Returned _ =>
      streams (snd (PutBatch batch this)) = GetStreams batch /\
      garbageCollector (snd (PutBatch batch this)) =
        MarkForDeletion (garbageCollector this) (deletions batch)
  | Thrown _ | Terminated _ =>
      streams (snd (PutBatch batch this)) = streams this /\
      garbageCollector (snd (PutBatch batch this)) = garbageCollector this
  end.
Proof.
  rewrite PutBatch_unfold.
  pose proof (PutBatch_writeBatch_frame batch this) as Hframe.
  destruct (PutBatch_writeBatch batch this) as [[wb|e|e] this1]; simpl in Hframe.
  - destruct (db_Write _ _) as [status d].
    destruct (ok status); simpl; rewrite Hframe; split; reflexivity.
  - destruct (index_or_storage_exception e); simpl; rewrite Hframe; split; reflexivity.
  - simpl. rewrite Hframe. split; reflexivity.
Qed.

(** X2. When the storage throws while [PutBatch] appends the entries or
    flushes, [PutBatch] throws that exception and never reaches the commit:
    the key-value store is the one it was. The exception reaches the caller
    when it is a storage error or an index error, the kinds [PutBatch]
    declares; one of another kind ends the program. *)
Theorem PutBatch_storage_exception_skips_commit (batch : UpdateBatch) (this : t)
    (e : exception) :
  fst (PutBatch_writeBatch batch this) = Thrown e ->
  fst (PutBatch batch this) =
    (if index_or_storage_exception e then Thrown e else Terminated e) /\
  db (snd (PutBatch batch this)) = db this.
Proof.
  intros Hthrown. rewrite PutBatch_unfold.
  pose proof (PutBatch_writeBatch_frame batch this) as Hframe.
  destruct (PutBatch_writeBatch batch this) as [[wb|e'|e'] this1]; simpl in *;
    [discriminate| |discriminate].
  injection Hthrown as ->. rewrite Hframe. split; reflexivity.
Qed.

(** X3. When the engine does not commit the write batch, [PutBatch] throws
    an index error that carries the engine's status, and the entries it has
    appended stay in the corpus storage. *)
Theorem PutBatch_commit_failure (batch : UpdateBatch) (this : t) (writeBatch : WriteBatch) :
  fst (PutBatch_writeBatch batch this) = Returned writeBatch ->
  ok (fst (db_Write (db this) writeBatch)) = false ->
  fst (PutBatch batch this) =
    Thrown (index_exception
              ("Unable to write to index: " +:+ ToString (fst (db_Write (db this) writeBatch)))) /\
  storage (snd (PutBatch batch this)) = storage (snd (PutBatch_writeBatch batch this)).
Proof.
  intros Hwb Hfail. rewrite PutBatch_unfold.
  pose proof (PutBatch_writeBatch_frame batch this) as Hframe.
  destruct (PutBatch_writeBatch batch this) as [[wb|e'|e'] this1]; simpl in *;
    [|discriminate..].
  injection Hwb as ->.
  assert (Hdb : db this1 = db this) by (rewrite Hframe; reflexivity).
  rewrite Hdb. destruct (db_Write (db this) writeBatch) as [status d]. simpl in *.
  rewrite Hfail. split; reflexivity.
Qed.

Lemma puts_app (wb1 wb2 : WriteBatch) : puts (wb1 ++ wb2) = puts wb1 ++ puts wb2.
Proof. unfold puts. apply flat_map_app. Qed.

Lemma puts_merges {V} (f : V -> string) (l : list (string * V)) :
  puts (map (fun kv => WMerge (fst kv) (f (snd kv))) l) = [].
Proof. induction l as [|kv l IH]; [reflexivity | exact IH]. Qed.

Lemma puts_deletions (domains : list domain_t) :
  puts (map (fun domain => WPut (MakeDomainDeletionKey domain) EmptyString) domains) =
  map (fun domain => (MakeDomainDeletionKey domain, EmptyString)) domains.
Proof. induction domains as [|d ds IH]; simpl; [reflexivity | now rewrite IH]. Qed.

(** X4. The puts of the write batch [PutBatch] builds are, in this order:
    for every domain marked for deletion its deletion key with an empty
    value; the streams key; and, unless the index is open for bulk load, the
    storage manifest key with the serialized manifest of the storage as it is
    after the appends and the flush. Under bulk load no manifest is put. *)
Theorem PutBatch_puts (batch : UpdateBatch) (this : t) (writeBatch : WriteBatch) :
  fst (PutBatch_writeBatch batch this) = Returned writeBatch ->
  puts writeBatch =
    map (fun domain => (MakeDomainDeletionKey domain, EmptyString)) (elements (deletions batch)) ++
    [(kStreamsKey, SerializeStreams (streams this))] ++
    (if openForBulkLoad this then []
     else [(kStorageManifestKey,
            StorageManifest_Serialize
              (storage_GetManifest (storage (snd (PutBatch_writeBatch batch this)))))]).
Proof.
  unfold PutBatch_writeBatch. run_cpp.
  destruct (PutBatch_entries _ _ _ _) as [[[sp tc]|e|e] this1] eqn:He; [|discriminate..].
  apply PutBatch_entries_frame in He.
  assert (Hs : streams this1 = streams this) by (rewrite He; reflexivity).
  assert (Hb : openForBulkLoad this1 = openForBulkLoad this) by (rewrite He; reflexivity).
  rewrite <- Hb, Hs.
  destruct (openForBulkLoad this1); simpl.
  - intros [= <-]. rewrite !puts_app, !puts_merges, puts_deletions. reflexivity.
  - destruct (storage_Flush _) as [[[]|e|e] s']; simpl; [|discriminate..].
    intros [= <-]. rewrite !puts_app, !puts_merges, puts_deletions. simpl.
    rewrite <- app_assoc. reflexivity.
Qed.

(** X5. A batch without entries appends nothing and merges nothing: its
    write batch holds puts only, and under bulk load the storage is not
    touched at all. *)
Theorem PutBatch_without_entries (batch : UpdateBatch) (this : t) (writeBatch : WriteBatch) :
  data batch = [] ->
  fst (PutBatch_writeBatch batch this) = Returned writeBatch ->
  merge_keys writeBatch = [] /\
  Forall is_put writeBatch /\
  (openForBulkLoad this = true -> snd (PutBatch_writeBatch batch this) = this).
Proof.
  intros Hdata. unfold PutBatch_writeBatch. rewrite Hdata. run_cpp.
  rewrite !map_to_list_empty. simpl.
  assert (Hdel : Forall is_put
                   (map (fun domain => WPut (MakeDomainDeletionKey domain) EmptyString)
                        (elements (deletions batch)))).
  { apply List.Forall_forall. intros op Hop. apply in_map_iff in Hop as (d & <- & _). exact I. }
  destruct (openForBulkLoad this) eqn:Hb; simpl.
  - intros [= <-].
    assert (Hputs : Forall is_put
              (map (fun domain => WPut (MakeDomainDeletionKey domain) EmptyString)
                   (elements (deletions batch)) ++
               [WPut kStreamsKey (SerializeStreams (streams this))])).
    { apply Forall_app. split; [exact Hdel | repeat constructor]. }
    split; [now apply merge_keys_puts|]. split; [exact Hputs | reflexivity].
  - destruct (storage_Flush _) as [[[]|e|e] s']; simpl; [|discriminate..].
    intros [= <-].
    assert (Hputs : Forall is_put
              ((map (fun domain => WPut (MakeDomainDeletionKey domain) EmptyString)
                    (elements (deletions batch)) ++
                [WPut kStreamsKey (SerializeStreams (streams this))]) ++
               [WPut kStorageManifestKey
                  (StorageManifest_Serialize (storage_GetManifest s'))])).
    { apply Forall_app. split; [|repeat constructor].
      apply Forall_app. split; [exact Hdel | repeat constructor]. }
    split; [now apply merge_keys_puts|]. split; [exact Hputs | discriminate].
Qed.
End BatchOutcomes.

Section CompactionOutcomes.
Context `{DbKv} `{Env}.
Import SuffixArray.

(** The batch [ForceCompaction] writes under bulk load, for the storage as
    it is after the flush. *)
Lemma ForceCompaction_unfold (this : t) :
  ForceCompaction this =
  if openForBulkLoad this then
    match storage_Flush (storage this) with
    | (Returned _, s') =>
        let '(status, d) :=
          db_Write (db this)
            [WPut kStreamsKey (SerializeStreams (streams this));
             WPut kStorageManifestKey (StorageManifest_Serialize (storage_GetManifest s'))] in
        if ok status
        then (Returned tt, set_db (db_CompactRange d) (set_storage s' this))
        else (Thrown (index_exception ("Unable to write to index: " +:+ ToString status)),
              set_db d (set_storage s' this))
    | (Thrown e, s') =>
        (if only_index_exception e then Thrown e else Terminated e, set_storage s' this)
    | (Terminated e, s') => (Terminated e, set_storage s' this)
    end
  else (Returned tt, set_db (db_CompactRange (db this)) this).
Proof.
  unfold ForceCompaction. run_cpp.
  destruct (openForBulkLoad this); simpl; [|reflexivity].
  destruct (storage_Flush _) as [[[]|e|e] s']; simpl; [|reflexivity..].
  destruct (db_Write _ _) as [status d]. simpl.
  destruct (ok status); reflexivity.
Qed.

(** X6. The prefix length and the bulk-load flag of an index are fixed:
    [PutBatch], [ForceCompaction] and [CountOccurrences] leave them as they
    are, whether they return or throw; [ForceCompaction] also leaves the
    stream state and the garbage collector. *)
Theorem index_parameters_are_fixed (this : t) (batch : UpdateBatch)
    (isSource : bool) (phrase : sentence_t) :
  (prefixLength (snd (PutBatch batch this)) = prefixLength this /\
   openForBulkLoad (snd (PutBatch batch this)) = openForBulkLoad this) /\
  (prefixLength (snd (ForceCompaction this)) = prefixLength this /\
   openForBulkLoad (snd (ForceCompaction this)) = openForBulkLoad this /\
   streams (snd (ForceCompaction this)) = streams this /\
   garbageCollector (snd (ForceCompaction this)) = garbageCollector this) /\
  (prefixLength (snd (CountOccurrences isSource phrase this)) = prefixLength this /\
   openForBulkLoad (snd (CountOccurrences isSource phrase this)) = openForBulkLoad this).
Proof.
  split; [|split].
  - rewrite PutBatch_unfold.
    pose proof (PutBatch_writeBatch_frame batch this) as Hframe.
    destruct (PutBatch_writeBatch batch this) as [[wb|e|e] this1]; simpl in Hframe.
    + destruct (db_Write _ _) as [status d].
      destruct (ok status); simpl; rewrite Hframe; split; reflexivity.
    + simpl. rewrite Hframe. split; reflexivity.
    + simpl. rewrite Hframe. split; reflexivity.
  - rewrite ForceCompaction_unfold.
    destruct (openForBulkLoad this) eqn:Hb; [|simpl; rewrite Hb; repeat split].
    destruct (storage_Flush _) as [[[]|e|e] s']; [|simpl; rewrite Hb; repeat split..].
    destruct (db_Write _ _) as [status d].
    destruct (ok status); simpl; rewrite Hb; repeat split.
  - unfold CountOccurrences. run_cpp.
    destruct (prefixLength this <? List.length phrase)%nat; split; reflexivity.
Qed.

(** X7. On an index that is not open for bulk load [ForceCompaction] writes
    nothing and flushes nothing: it returns, and the store after it is the
    compaction of the store before it, with the storage untouched. *)
Theorem ForceCompaction_steady_state (this : t) :
  openForBulkLoad this = false ->
  fst (ForceCompaction this) = Returned tt /\
  db (snd (ForceCompaction this)) = db_CompactRange (db this) /\
  storage (snd (ForceCompaction this)) = storage this.
Proof.
  intros Hb. rewrite ForceCompaction_unfold, Hb. repeat split.
Qed.

(** X8. Under bulk load, when the flush returns and the engine does not
    commit the deferred batch of the stream state and the manifest,
    [ForceCompaction] throws an index error with the engine's status and
    does not go on to compact: the store is the one the failed write left. *)
Theorem ForceCompaction_commit_failure (this : t) (storage' : CorporaStorage) :
  openForBulkLoad this = true ->
  storage_Flush (storage this) = (Returned tt, storage') ->
  ok (fst (db_Write (db this)
             [WPut kStreamsKey (SerializeStreams (streams this));
              WPut kStorageManifestKey
                (StorageManifest_Serialize (storage_GetManifest storage'))])) = false ->
  fst (ForceCompaction this) =
    Thrown (index_exception
              ("Unable to write to index: " +:+
               ToString (fst (db_Write (db this)
                                [WPut kStreamsKey (SerializeStreams (streams this));
                                 WPut kStorageManifestKey
                                   (StorageManifest_Serialize (storage_GetManifest storage'))])))) /\
  db (snd (ForceCompaction this)) =
    snd (db_Write (db this)
           [WPut kStreamsKey (SerializeStreams (streams this));
            WPut kStorageManifestKey (StorageManifest_Serialize (storage_GetManifest storage'))]).
Proof.
  intros Hb Hflush Hfail. rewrite ForceCompaction_unfold, Hb, Hflush.
  destruct (db_Write _ _) as [status d]. simpl in *. rewrite Hfail. split; reflexivity.
Qed.

(** X27. Under bulk load, when the flush of the storage throws,
    [ForceCompaction] neither writes nor compacts: the store is the one it
    was. [ForceCompaction] declares index errors only, so an index error
    reaches the caller and any other exception ends the program, a storage
    error among them. *)
Theorem ForceCompaction_flush_exception (this : t) (e : exception)
    (storage' : CorporaStorage) :
  openForBulkLoad this = true ->
  storage_Flush (storage this) = (Thrown e, storage') ->
  fst (ForceCompaction this) =
    (if only_index_exception e then Thrown e else Terminated e) /\
  (forall what, e = storage_exception what -> fst (ForceCompaction this) = Terminated e) /\
  db (snd (ForceCompaction this)) = db this.
Proof.
  intros Hb Hflush. rewrite ForceCompaction_unfold, Hb, Hflush.
  split; [reflexivity|]. split; [|reflexivity].
  intros what ->. reflexivity.
Qed.

(** X9. The deferred durability step persists the latest batch. Under bulk
    load, after a [PutBatch] that returned, a [ForceCompaction] that returns
    has written one batch of two puts, the serialization of that batch's
    stream state under the streams key and the manifest of the flushed
    storage under the manifest key, and has compacted the resulting store. *)
Theorem PutBatch_then_ForceCompaction (batch : UpdateBatch) (this : t)
    (storage' : CorporaStorage) :
  openForBulkLoad this = true ->
  fst (PutBatch batch this) = Returned tt ->
  storage_Flush (storage (snd (PutBatch batch this))) = (Returned tt, storage') ->
  fst (ForceCompaction (snd (PutBatch batch this))) = Returned tt ->
  db (snd (ForceCompaction (snd (PutBatch batch this)))) =
    db_CompactRange
      (snd (db_Write (db (snd (PutBatch batch this)))
              [WPut kStreamsKey (SerializeStreams (GetStreams batch));
               WPut kStorageManifestKey
                 (StorageManifest_Serialize (storage_GetManifest storage'))])).
Proof.
  intros Hb Hput Hflush Hforce.
  assert (Hmembers : streams (snd (PutBatch batch this)) = GetStreams batch /\
                     openForBulkLoad (snd (PutBatch batch this)) = openForBulkLoad this).
  { revert Hput. rewrite PutBatch_unfold.
    pose proof (PutBatch_writeBatch_frame batch this) as Hframe.
    destruct (PutBatch_writeBatch batch this) as [[wb|e|e] this1]; simpl in Hframe;
      [|simpl; destruct (index_or_storage_exception e); discriminate|discriminate].
    destruct (db_Write _ _) as [status d].
    destruct (ok status); simpl; [|discriminate].
    intros _. rewrite Hframe. split; reflexivity. }
  destruct Hmembers as [Hstreams Hbulk].
  set (this1 := snd (PutBatch batch this)) in *.
  rewrite ForceCompaction_unfold in Hforce |- *.
  rewrite Hbulk, Hb, Hflush, Hstreams in *.
  destruct (db_Write _ _) as [status d]. simpl in *.
  destruct (ok status); [reflexivity | discriminate].
Qed.
End CompactionOutcomes.

(** ** The prefix loops: bounds, frame and edge cases *)

Lemma spans_length_bound (L : nat) (lengths : nat -> nat) (starts : list nat) :
  (forall start, lengths start <= L)%nat ->
  (List.length (flat_map (fun start => map (pair start) (seq 1 (lengths start))) starts) <=
   L * List.length starts)%nat.
Proof.
  intros Hle. induction starts as [|start starts IH]; simpl; [lia|].
  rewrite length_app, length_map, length_seq. specialize (Hle start). nia.
Qed.

Lemma prefix_spans_length (L size : nat) : (List.length (prefix_spans L size) <= L * size)%nat.
Proof.
  unfold prefix_spans.
  pose proof (spans_length_bound L (fun start => Nat.min L (size - start)) (seq 0 size)
                ltac:(intros; cbv beta; lia)) as Hb.
  now rewrite length_seq in Hb.
Qed.

Lemma prefix_spans_no_length (size : nat) : prefix_spans 0 size = [].
Proof.
  unfold prefix_spans. induction (seq 0 size) as [|start starts IH]; [reflexivity | exact IH].
Qed.

Lemma incremented_exact (n : nat) (count : Z) :
  int64_min <= count -> count + Z.of_nat n <= int64_max ->
  incremented n count = count + Z.of_nat n.
Proof.
  unfold incremented. induction n as [|n IH]; intros Hmin Hmax; simpl; [lia|].
  rewrite IH by lia.
  unfold int64_add. rewrite int64_wrap_id; [lia|].
  unfold in_int64. lia.
Qed.

Section LoopEdges.
Context `{DbKv} `{Env}.
Import SuffixArray.

Lemma accumulate_posting_other L domain sentence location spans key :
  (forall span, In span spans -> MakePrefixKey L domain sentence (fst span) (snd span) <> key) ->
  forall outBatch,
    fold_left (accumulate_posting L domain sentence location) spans outBatch !! key =
    outBatch !! key.
Proof.
  induction spans as [|span spans IH]; intros Hother outBatch; simpl; [reflexivity|].
  rewrite IH by (intros span' Hin; apply Hother; now right).
  unfold accumulate_posting. apply lookup_insert_ne, Hother. now left.
Qed.

Lemma increment_count_other L sentence spans key :
  (forall span, In span spans -> MakeCountKey L sentence (fst span) (snd span) <> key) ->
  forall outBatch,
    fold_left (increment_count L sentence) spans outBatch !! key = outBatch !! key.
Proof.
  induction spans as [|span spans IH]; intros Hother outBatch; simpl; [reflexivity|].
  rewrite IH by (intros span' Hin; apply Hother; now right).
  unfold increment_count. apply lookup_insert_ne, Hother. now left.
Qed.

(** X10. One sentence of [size] words adds at most [L * size] postings
    under any one key, and increments any one count at most [L * size]
    times. *)
Theorem AddToBatch_bounds (L : nat) (domain : domain_t) (source target : sentence_t)
    (location : Z) (sourcePrefixes : gmap string PostingList.t)
    (targetCounts : gmap string Z) (key : string) :
  (List.length (default [] (AddPrefixesToBatch L domain source location sourcePrefixes !! key)) <=
   List.length (default [] (sourcePrefixes !! key)) + L * List.length source)%nat /\
  exists n, (n <= L * List.length target)%nat /\
    default 0 (AddTargetCountsToBatch L target targetCounts !! key) =
    incremented n (default 0 (targetCounts !! key)).
Proof.
  split.
  - rewrite AddPrefixesToBatch_spans, accumulate_posting_lookup.
    rewrite length_app, length_map.
    pose proof (length_filter
                  (fun span => MakePrefixKey L domain source (fst span) (snd span) = key)
                  (prefix_spans L (List.length source))) as Hf.
    pose proof (prefix_spans_length L (List.length source)). lia.
  - rewrite AddTargetCountsToBatch_spans, increment_count_lookup.
    eexists. split; [|reflexivity].
    pose proof (length_filter
                  (fun span => MakeCountKey L target (fst span) (snd span) = key)
                  (prefix_spans L (List.length target))) as Hf.
    pose proof (prefix_spans_length L (List.length target)). lia.
Qed.

(** X11. The loops touch only the keys of the spans they visit: a key that
    is the prefix key of no span of the source sentence, and the count key of
    no span of the target sentence, is bound after the calls exactly as
    before, or not at all. *)
Theorem AddToBatch_other_keys (L : nat) (domain : domain_t) (source target : sentence_t)
    (location : Z) (sourcePrefixes : gmap string PostingList.t)
    (targetCounts : gmap string Z) (key : string) :
  (forall start length, In (start, length) (prefix_spans L (List.length source)) ->
     MakePrefixKey L domain source start length <> key) ->
  (forall start length, In (start, length) (prefix_spans L (List.length target)) ->
     MakeCountKey L target start length <> key) ->
  AddPrefixesToBatch L domain source location sourcePrefixes !! key = sourcePrefixes !! key /\
  AddTargetCountsToBatch L target targetCounts !! key = targetCounts !! key.
Proof.
  intros Hs Ht. split.
  - rewrite AddPrefixesToBatch_spans. apply accumulate_posting_other.
    intros [start length] Hin. now apply Hs.
  - rewrite AddTargetCountsToBatch_spans. apply increment_count_other.
    intros [start length] Hin. now apply Ht.
Qed.

(** X12. With prefix length 0, or on an empty sentence, the loops add
    nothing: both maps come back as they were. *)
Theorem AddToBatch_nothing_to_add (L : nat) (domain : domain_t) (sentence : sentence_t)
    (location : Z) (sourcePrefixes : gmap string PostingList.t)
    (targetCounts : gmap string Z) :
  AddPrefixesToBatch 0 domain sentence location sourcePrefixes = sourcePrefixes /\
  AddTargetCountsToBatch 0 sentence targetCounts = targetCounts /\
  AddPrefixesToBatch L domain [] location sourcePrefixes = sourcePrefixes /\
  AddTargetCountsToBatch L [] targetCounts = targetCounts.
Proof.
  repeat split.
  - now rewrite AddPrefixesToBatch_spans, prefix_spans_no_length.
  - now rewrite AddTargetCountsToBatch_spans, prefix_spans_no_length.
Qed.

(** X13. As long as the count stays an [int64_t], the count under a key
    after [AddTargetCountsToBatch] is the count before plus the number of
    spans of the sentence with that key; a key that was absent counts from
    zero. *)
Theorem AddTargetCountsToBatch_exact (L : nat) (sentence : sentence_t)
    (targetCounts : gmap string Z) (key : string) :
  int64_min <= default 0 (targetCounts !! key) ->
  default 0 (targetCounts !! key) + Z.of_nat (L * List.length sentence) <= int64_max ->
  default 0 (AddTargetCountsToBatch L sentence targetCounts !! key) =
  default 0 (targetCounts !! key) + Z.of_nat (target_occurrences L sentence key).
Proof.
  intros Hmin Hmax.
  rewrite AddTargetCountsToBatch_spans, increment_count_lookup.
  apply incremented_exact; [exact Hmin|].
  pose proof (length_filter
                (fun span => MakeCountKey L sentence (fst span) (snd span) = key)
                (prefix_spans L (List.length sentence))) as Hf.
  pose proof (prefix_spans_length L (List.length sentence)).
  unfold target_occurrences. lia.
Qed.
End LoopEdges.

(** ** Counting: the value returned *)

Section CountValues.
Context `{DbKv} `{Env}.
Import SuffixArray.

Lemma cursor_loop_sum (cursor : list Z) :
  Forall (fun CountValue => 0 <= CountValue) cursor ->
  forall count,
    int64_min <= count -> count + fold_right Z.add 0 cursor <= int64_max ->
    cursor_loop cursor count = count + fold_right Z.add 0 cursor.
Proof.
  induction 1 as [|v cursor Hv Hcursor IH]; intros count Hmin Hmax; simpl in *; [lia|].
  assert (Hnonneg : 0 <= fold_right Z.add 0 cursor).
  { clear -Hcursor. induction Hcursor; simpl; lia. }
  unfold int64_add. rewrite int64_wrap_id by (unfold in_int64; lia).
  rewrite IH by lia. lia.
Qed.

(** X14. For a phrase no longer than the prefix length, the source-side
    count is the sum of the cursor's count values over all the entries the
    phrase matches, and the target-side count is the count decoded from the
    value stored under the phrase's count key (from the empty string when the
    engine stores none), each raised to 1 when it is smaller. The sums and
    the decoded count are taken to fit an [int64_t]. *)
Theorem CountOccurrences_value (this : t) (phrase : sentence_t) :
  (List.length phrase <= prefixLength this)%nat ->
  Forall (fun CountValue => 0 <= CountValue)
         (NewGlobalCursor_Seek (db this) (prefixLength this) phrase) ->
  fold_right Z.add 0 (NewGlobalCursor_Seek (db this) (prefixLength this) phrase) <= int64_max ->
  in_int64 (DeserializeCount
              (snd (db_Get (db this)
                      (MakeCountKey (prefixLength this) phrase 0 (List.length phrase))
                      EmptyString))) ->
  fst (CountOccurrences true phrase this) =
    Returned (Z.max (fold_right Z.add 0
                       (NewGlobalCursor_Seek (db this) (prefixLength this) phrase)) 1) /\
  fst (CountOccurrences false phrase this) =
    Returned (Z.max (DeserializeCount
                       (snd (db_Get (db this)
                               (MakeCountKey (prefixLength this) phrase 0 (List.length phrase))
                               EmptyString))) 1).
Proof.
  intros Hlen Hvalues Hsum Hcount. unfold CountOccurrences. run_cpp.
  destruct (Nat.ltb_spec (prefixLength this) (List.length phrase)); [lia|].
  unfold in_int64, int64_min, int64_max in *. split; simpl; f_equal.
  - rewrite cursor_loop_sum by (unfold int64_min, int64_max; (assumption || lia)).
    assert (Hnonneg : 0 <= fold_right Z.add 0
                             (NewGlobalCursor_Seek (db this) (prefixLength this) phrase)).
    { clear -Hvalues. induction Hvalues; simpl; lia. }
    unfold to_size_t. rewrite Z.mod_small; lia.
  - unfold to_size_t. rewrite Z.mod_small; lia.
Qed.
End CountValues.

(** ** Merging: exact grouping, any number of counts, appended postings *)

Lemma sum_Permutation (l1 l2 : list Z) :
  Permutation l1 l2 -> fold_right Z.add 0 l1 = fold_right Z.add 0 l2.
Proof. induction 1; simpl; lia. Qed.

Section MergeMore.
Context `{DbKv}.
Import PostingList MergePositionOperator.

(** X15. Under a source-prefix key the grouping of the merges does not
    show in the bytes: two ways of merging the same operands in the same
    order leave the same value, the operands one after the other. *)
Theorem merge_grouping_is_exact (key : string) (t1 t2 : merge_order) :
  first_byte key = kSourcePrefixKeyType ->
  operands t1 = operands t2 ->
  merge_all key t1 = Some (joined (operands t1)) /\
  merge_all key t1 = merge_all key t2.
Proof.
  intros Htag Hops. rewrite !merge_all_source by exact Htag.
  split; [reflexivity | now rewrite Hops].
Qed.

(** X16. Under a target-count key any number of serialized counts, merged
    in any order and any grouping, leave the serialization of their 64-bit
    sum. *)
Theorem merge_counts_any_order (key : string) (t1 t2 : merge_order) (counts1 counts2 : list Z) :
  kSourcePrefixKeyType <> kTargetCountKeyType ->
  first_byte key = kTargetCountKeyType ->
  (forall z, in_int64 z -> DeserializeCount (SerializeCount z) = z) ->
  operands t1 = map SerializeCount counts1 ->
  operands t2 = map SerializeCount counts2 ->
  Forall in_int64 counts1 ->
  Permutation counts1 counts2 ->
  merge_all key t1 = Some (SerializeCount (int64_wrap (fold_right Z.add 0 counts1))) /\
  merge_all key t2 = merge_all key t1.
Proof.
  intros Htags Htag Hround Hops1 Hops2 Hin1 Hperm.
  assert (Hin2 : Forall in_int64 counts2) by (eapply Permutation_Forall; eassumption).
  rewrite (merge_all_counts key t1 Htags Htag Hround counts1 Hops1 Hin1).
  rewrite (merge_all_counts key t2 Htags Htag Hround counts2 Hops2 Hin2).
  split; [reflexivity|]. now rewrite (sum_Permutation _ _ Hperm).
Qed.

(** X17. A merge under a source-prefix key keeps what was there and adds
    to it: when the existing value is a whole number of records, the merged
    value decodes to the existing postings followed by the incoming ones, in
    their order, and merging two such values gives such a value again. *)
Theorem Merge_appends_postings (key existing value : string) :
  (0 < kPostingRecordWidth)%nat ->
  first_byte key = kSourcePrefixKeyType ->
  fragment existing ->
  exists new_value,
    Merge key (Some existing) value = Merged new_value /\
    Deserialize new_value [] = Deserialize existing [] ++ Deserialize value [] /\
    (fragment value -> fragment new_value).
Proof.
  intros Hw Htag Hf. exists (existing +:+ value). unfold Merge.
  rewrite Htag, Ascii.eqb_refl. simpl. split; [reflexivity|]. split.
  - now apply Deserialize_append.
  - intros Hv. now apply fragment_append.
Qed.
End MergeMore.

(** ** The iterator: progress, the end, and faults *)

Section IteratorMore.
Context `{DbKv} `{Env}.
Import IndexIterator.

Lemma Next_loop_progress (L : nat) (scan : RocksIterator) :
  forall outEntry,
    match Next_loop L scan outEntry with
    | (Returned true, (scan', _)) => (FullScan.scan_length scan' < FullScan.scan_length scan)%nat
    | (Returned false, (scan', outEntry')) => it_Valid scan' = false /\ outEntry' = outEntry
    | (Thrown _, (scan', _)) => (FullScan.scan_length scan' < FullScan.scan_length scan)%nat
    | (Terminated _, _) => False
    end.
Proof.
  induction scan as [st | st key value rest IH]; intros outEntry; simpl; [split; reflexivity|].
  unfold decode.
  destruct (Ascii.eqb _ kSourcePrefixKeyType);
    [destruct (ok (it_status rest)); simpl; lia|].
  destruct (Ascii.eqb _ kTargetCountKeyType);
    [destruct (ok (it_status rest)); simpl; lia|].
  destruct (ok (it_status rest)); simpl; [|lia].
  specialize (IH outEntry).
  destruct (Next_loop L rest outEntry) as [[[]|e|e] [scan' outEntry']]; (lia || exact IH).
Qed.

(** X18. [Next] only moves forward. A call that returns [true] or throws
    has moved the scan past at least one record; a call that returns [false]
    has left the scan without a current record and has not touched the entry
    of the caller. The prefix length of the iterator never changes. *)
Theorem Next_moves_forward (this : t) (outEntry : IndexEntry) :
  prefixLength (fst (snd (Next (this, outEntry)))) = prefixLength this /\
  match fst (Next (this, outEntry)) with
  | Returned false =>
      it_Valid (it (fst (snd (Next (this, outEntry))))) = false /\
      snd (snd (Next (this, outEntry))) = outEntry
  | _ =>
      (FullScan.scan_length (it (fst (snd (Next (this, outEntry))))) <
       FullScan.scan_length (it this))%nat
  end.
Proof.
  pose proof (Next_loop_progress (prefixLength this) (it this) outEntry) as Hp.
  unfold Next.
  destruct (Next_loop (prefixLength this) (it this) outEntry) as [[[]|e|e] [scan' outEntry']];
    simpl; split; (reflexivity || exact Hp || destruct Hp).
Qed.

(** X19. The end is final: after a call of [Next] has returned [false],
    every further call returns [false] and changes nothing. *)
Theorem Next_after_the_end (this : t) (outEntry : IndexEntry) :
  fst (Next (this, outEntry)) = Returned false ->
  Next (snd (Next (this, outEntry))) = (Returned false, snd (Next (this, outEntry))).
Proof.
  pose proof (Next_loop_progress (prefixLength this) (it this) outEntry) as Hp.
  unfold Next.
  destruct (Next_loop (prefixLength this) (it this) outEntry) as [[[]|e|e] [scan' outEntry']];
    simpl; intros Hr; try discriminate Hr.
  simpl in Hp. destruct Hp as [Hvalid _].
  destruct scan' as [st | st key value rest]; [reflexivity | discriminate].
Qed.

(** X20. A fault stops the iteration with an index error. When the scan
    reports a status that is not OK after [Next] has moved past a record,
    calling [Next] until it stops ends in the index error that carries the
    first such status, within one call for each record. *)
Theorem drain_throws_first_fault (L : nat) (scan : RocksIterator) (st : Status) :
  first_fault scan = Some st ->
  forall calls outEntry,
    (FullScan.scan_length scan < calls)%nat ->
    FullScan.drain calls ({| prefixLength := L; it := scan |}, outEntry) =
    Some (Thrown (index_exception (ToString st))).
Proof.
  induction scan as [st0 | st0 key value rest IH]; intros Hfault calls outEntry Hcalls;
    [discriminate|].
  simpl in Hfault, Hcalls. destruct calls as [|calls]; [lia|].
  simpl. destruct (decode L key value outEntry) as [outEntry' loop].
  destruct (ok (it_status rest)) eqn:Hok; simpl.
  - specialize (IH Hfault). destruct loop.
    + specialize (IH (S calls) outEntry' ltac:(lia)). simpl in IH. exact IH.
    + rewrite IH by lia. reflexivity.
  - injection Hfault as <-. reflexivity.
Qed.
End IteratorMore.

(** ** Initialization: the other errors and the options *)

Section InitMore.
Context `{DbKv} `{Env}.

(** X22. When the index opens and the corpus storage does not, the
    constructor throws what the storage threw. The exception reaches the
    caller when it is a storage error or an index error, the kinds the
    constructor declares; one of another kind ends the program. *)
Theorem new_storage_open_error (modelPath : string) (prefixLength : nat)
    (gcTimeout : double) (gcBatchSize : nat) (prepareForBulkLoad : bool) (e : exception) :
  is_directory modelPath = true ->
  ok (fst (DB_Open (SuffixArray.tuned_options prepareForBulkLoad)
                   (absolute_in modelPath "index"))) = true ->
  (let db := snd (DB_Open (SuffixArray.tuned_options prepareForBulkLoad)
                          (absolute_in modelPath "index")) in
   CorporaStorage_new (absolute_in modelPath "storage")
     (StorageManifest_Deserialize
        (snd (db_Get db SuffixArray.kStorageManifestKey EmptyString))) = Thrown e) ->
  SuffixArray.new modelPath prefixLength gcTimeout gcBatchSize prepareForBulkLoad =
  if index_or_storage_exception e then Thrown e else Terminated e.
Proof.
  intros Hdir Hopen Hstorage. unfold SuffixArray.new. rewrite Hdir. cbn [negb].
  destruct (DB_Open _ _) as [status d]. cbn [fst snd] in *. rewrite Hopen. cbn [negb].
  cbv zeta. rewrite Hstorage. reflexivity.
Qed.

(** X23. The options the index is opened with. The merge operator is
    registered and a missing index is created in both modes. Background
    parallelism is raised only outside bulk load and only with more than one
    processor: to 2 threads up to four processors, to 4 beyond. Under bulk
    load none of the level-0 triggers is set. *)
Theorem tuned_options_by_mode (prepareForBulkLoad : bool) :
  In (merge_operator MergePositionOperator.Name) (SuffixArray.tuned_options prepareForBulkLoad) /\
  In (create_if_missing true) (SuffixArray.tuned_options prepareForBulkLoad) /\
  (forall threads,
     In (IncreaseParallelism threads) (SuffixArray.tuned_options prepareForBulkLoad) <->
     prepareForBulkLoad = false /\ (1 < hardware_concurrency)%nat /\
     threads = if (4 <? hardware_concurrency)%nat then 4 else 2) /\
  (forall n,
     In (level0_file_num_compaction_trigger n) (SuffixArray.tuned_options prepareForBulkLoad) \/
     In (level0_slowdown_writes_trigger n) (SuffixArray.tuned_options prepareForBulkLoad) \/
     In (level0_stop_writes_trigger n) (SuffixArray.tuned_options prepareForBulkLoad) ->
     prepareForBulkLoad = false) /\
  (In PrepareForBulkLoad (SuffixArray.tuned_options prepareForBulkLoad) <->
   prepareForBulkLoad = true).
Proof.
  unfold SuffixArray.tuned_options.
  destruct prepareForBulkLoad;
    [|destruct (Nat.ltb_spec 1 hardware_concurrency) as [Hcpus|Hcpus]];
    simpl; repeat split; intros;
    repeat match goal with
           | Hin : _ \/ _ |- _ => destruct Hin
           | Hin : _ /\ _ |- _ => destruct Hin
           | Hin : False |- _ => destruct Hin
           end;
    try discriminate; try congruence; try lia; subst; tauto.
Qed.
End InitMore.

(** ** Batch indexing: what is merged is never empty *)

Section MergedValues.
Context `{DbKv} `{Env}.
Import SuffixArray.

Lemma AddPrefixesToBatch_fresh_key L domain sentence location outBatch key :
  is_Some (AddPrefixesToBatch L domain sentence location outBatch !! key) ->
  is_Some (outBatch !! key) \/ source_postings L domain sentence location key <> [].
Proof.
  intros Hsome.
  destruct (decide (source_postings L domain sentence location key = [])) as [Hnone|Hsome'];
    [left | now right].
  rewrite AddPrefixesToBatch_spans in Hsome.
  rewrite accumulate_posting_other in Hsome; [exact Hsome|].
  intros span Hin Hkey. unfold source_postings in Hnone.
  apply map_eq_nil in Hnone.
  assert (Hmem : span ∈ filter
            (fun span => MakePrefixKey L domain sentence (fst span) (snd span) = key)
            (prefix_spans L (List.length sentence))).
  { apply list_elem_of_filter. split; [exact Hkey | now apply list_elem_of_In]. }
  rewrite Hnone in Hmem. inversion Hmem.
Qed.

Lemma AddTargetCountsToBatch_fresh_key L sentence outBatch key :
  is_Some (AddTargetCountsToBatch L sentence outBatch !! key) ->
  is_Some (outBatch !! key) \/ (0 < target_occurrences L sentence key)%nat.
Proof.
  intros Hsome.
  destruct (decide (target_occurrences L sentence key = 0%nat)) as [Hnone|Hsome'];
    [left | right; lia].
  rewrite AddTargetCountsToBatch_spans in Hsome.
  rewrite increment_count_other in Hsome; [exact Hsome|].
  intros span Hin Hkey. unfold target_occurrences in Hnone.
  apply length_zero_iff_nil in Hnone.
  assert (Hmem : span ∈ filter
            (fun span => MakeCountKey L sentence (fst span) (snd span) = key)
            (prefix_spans L (List.length sentence))).
  { apply list_elem_of_filter. split; [exact Hkey | now apply list_elem_of_In]. }
  rewrite Hnone in Hmem. inversion Hmem.
Qed.

Lemma PutBatch_entries_fresh_keys entries :
  forall sourcePrefixes targetCounts this sourcePrefixes' targetCounts' this',
    PutBatch_entries entries sourcePrefixes targetCounts this =
      (Returned (sourcePrefixes', targetCounts'), this') ->
    let L := prefixLength this in
    (forall key, is_Some (sourcePrefixes' !! key) ->
       is_Some (sourcePrefixes !! key) \/
       batch_postings L entries (appended_offsets (storage this) entries) key <> []) /\
    (forall key, is_Some (targetCounts' !! key) ->
       is_Some (targetCounts !! key) \/ (0 < batch_occurrences L entries key)%nat).
Proof.
  induction entries as [|entry entries IH]; intros sp tc this sp' tc' this'; simpl.
  - run_cpp. intros [= <- <- <-]. split; intros key Hsome; now left.
  - run_cpp.
    destruct (storage_Append _ _ _ _ _) as [[offset|e|e] s'] eqn:Happend; [|discriminate..].
    intros Hrest. apply IH in Hrest as (Hsp & Htc). simpl in *. split; intros key Hsome.
    + apply Hsp in Hsome as [Hsome|Hrest].
      * apply AddPrefixesToBatch_fresh_key in Hsome as [Hsome|Hfresh]; [now left | right].
        unfold batch_postings. simpl. intros Hnil. apply app_eq_nil in Hnil as [Hnil _].
        contradiction.
      * right. unfold batch_postings in *. simpl. intros Hnil.
        apply app_eq_nil in Hnil as [_ Hnil]. contradiction.
    + apply Htc in Hsome as [Hsome|Hrest].
      * apply AddTargetCountsToBatch_fresh_key in Hsome as [Hsome|Hfresh]; [now left | right].
        unfold batch_occurrences. simpl. lia.
      * right. unfold batch_occurrences in *. simpl. lia.
Qed.

(** X24. [PutBatch] never merges an empty value: a key is merged only when
    the batch has an occurrence for it. The posting list serialized under a
    source-prefix key has at least one posting, and the count serialized
    under a target-count key has been incremented at least once. *)
Theorem PutBatch_merges_have_occurrences (batch : UpdateBatch) (this : t)
    (writeBatch : WriteBatch) :
  fst (PutBatch_writeBatch batch this) = Returned writeBatch ->
  let L := prefixLength this in
  let offsets := appended_offsets (storage this) (data batch) in
  forall key value,
    In (WMerge key value) writeBatch ->
    (value = PostingList.Serialize (batch_postings L (data batch) offsets key) /\
     batch_postings L (data batch) offsets key <> []) \/
    (value = SerializeCount (incremented (batch_occurrences L (data batch) key) 0) /\
     (0 < batch_occurrences L (data batch) key)%nat).
Proof.
  intros Hfst L offsets key value Hin.
  destruct (PutBatch_writeBatch batch this) as [r this'] eqn:Hwb. simpl in Hfst. subst r.
  apply PutBatch_writeBatch_shape in Hwb
    as (sp & tc & puts' & this1 & Hentries & Hputs & ->).
  pose proof (PutBatch_entries_maps _ _ _ _ _ _ _ Hentries) as (Hsp & Htc & _ & _).
  pose proof (PutBatch_entries_fresh_keys _ _ _ _ _ _ _ Hentries) as (Hspk & Htck).
  fold L in Hsp, Htc, Hspk, Htck. fold offsets in Hsp, Hspk.
  apply in_app_or in Hin as [Hin|Hin]; [|apply in_app_or in Hin as [Hin|Hin]].
  - left. apply in_map_iff in Hin as ([k pl] & [= <- <-] & Hin). simpl.
    apply list_elem_of_In, elem_of_map_to_list in Hin.
    split.
    + f_equal. specialize (Hsp k). unfold PostingList.t in *.
      rewrite Hin, lookup_empty in Hsp. exact Hsp.
    + destruct (Hspk k) as [Hempty|Hfresh]; [eauto | | exact Hfresh].
      rewrite lookup_empty in Hempty. now destruct Hempty.
  - right. apply in_map_iff in Hin as ([k c] & [= <- <-] & Hin). simpl.
    apply list_elem_of_In, elem_of_map_to_list in Hin.
    split.
    + f_equal. specialize (Htc k). rewrite Hin, lookup_empty in Htc. exact Htc.
    + destruct (Htck k) as [Hempty|Hfresh]; [eauto | | exact Hfresh].
      rewrite lookup_empty in Hempty. now destruct Hempty.
  - rewrite List.Forall_forall in Hputs. apply Hputs in Hin. contradiction.
Qed.
End MergedValues.

(** ** The iterator: fresh entries, and a scan from the index *)

Section IteratorFresh.
Context `{DbKv} `{Env}.
Import IndexIterator.

Lemma Next_loop_fresh (L : nat) (scan : RocksIterator) :
  forall entry1 entry2,
    fst (Next_loop L scan entry1) = fst (Next_loop L scan entry2) /\
    fst (snd (Next_loop L scan entry1)) = fst (snd (Next_loop L scan entry2)) /\
    (fst (Next_loop L scan entry1) = Returned true ->
     snd (snd (Next_loop L scan entry1)) = snd (snd (Next_loop L scan entry2))).
Proof.
  induction scan as [st | st key value rest IH]; intros entry1 entry2; simpl.
  - repeat split. discriminate.
  - unfold decode.
    destruct (Ascii.eqb _ kSourcePrefixKeyType);
      [destruct (ok (it_status rest)); simpl; repeat split; discriminate|].
    destruct (Ascii.eqb _ kTargetCountKeyType);
      [destruct (ok (it_status rest)); simpl; repeat split; discriminate|].
    destruct (ok (it_status rest)); simpl; [apply IH | repeat split; discriminate].
Qed.

(** X25. An entry [Next] reports owes nothing to what the caller's entry
    held before the call: whatever the entry passed in, the call has the same
    outcome, leaves the scan at the same place, and when it returns [true]
    reports the same entry. *)
Theorem Next_reports_fresh_entry (this : t) (entry1 entry2 : IndexEntry) :
  fst (Next (this, entry1)) = fst (Next (this, entry2)) /\
  fst (snd (Next (this, entry1))) = fst (snd (Next (this, entry2))) /\
  (fst (Next (this, entry1)) = Returned true ->
   snd (snd (Next (this, entry1))) = snd (snd (Next (this, entry2)))).
Proof.
  pose proof (Next_loop_fresh (prefixLength this) (it this) entry1 entry2) as (Hr & Hit & He).
  unfold Next.
  destruct (Next_loop (prefixLength this) (it this) entry1) as [r1 [it1 e1]].
  destruct (Next_loop (prefixLength this) (it this) entry2) as [r2 [it2 e2]].
  simpl in *. subst. repeat split. exact He.
Qed.

(** X26. Iterating an index from [NewIterator]: when the scan of the store
    has no fault, calling [Next] once more than there are records returns
    [false] at the end, throws nothing, and has reported the entries of the
    records of a recognized type, in the order of the scan and no more of
    them than there are records; the index itself is left as it was. *)
Theorem iterate_reports_recognized_records (sa : SuffixArray.t) (outEntry : IndexEntry) :
  FullScan.scan_ok (db_NewIterator_SeekToFirst (SuffixArray.db sa)) = true ->
  let scan := db_NewIterator_SeekToFirst (SuffixArray.db sa) in
  FullScan.iterate (S (FullScan.scan_length scan)) outEntry sa =
    (Returned (Some (Returned (FullScan.reported (SuffixArray.prefixLength sa) scan outEntry))),
     sa) /\
  (List.length (FullScan.reported (SuffixArray.prefixLength sa) scan outEntry) <=
   FullScan.scan_length scan)%nat.
Proof.
  intros Hok scan. split.
  - unfold FullScan.iterate, bind, gets, ret, NewIterator. fold scan.
    rewrite (drain_reported _ scan Hok) by lia. reflexivity.
  - clear Hok. generalize outEntry. induction scan as [st | st key value rest IH];
      intros entry; simpl; [lia|].
    destruct (decode _ key value entry) as [entry' loop].
    specialize (IH entry'). destruct loop; simpl; lia.
Qed.
End IteratorFresh.

(** ** The further properties on the sample and the faulty index *)

Section MoreSampleRuns.
Import Sample Sample2.

Lemma PutBatch_puts_witness :
  exists writeBatch,
    fst (SuffixArray.PutBatch_writeBatch batch_deletions sa_bulk) = Returned writeBatch /\
    puts writeBatch =
      map (fun domain => (MakeDomainDeletionKey domain, EmptyString))
          (elements (deletions batch_deletions)) ++
      [(SuffixArray.kStreamsKey, SerializeStreams (SuffixArray.streams sa_bulk))] ++
      (if SuffixArray.openForBulkLoad sa_bulk then []
       else [(SuffixArray.kStorageManifestKey,
              StorageManifest_Serialize
                (storage_GetManifest
                   (SuffixArray.storage
                      (snd (SuffixArray.PutBatch_writeBatch batch_deletions sa_bulk)))))]).
Proof.
  assert (Hwb : exists writeBatch,
             fst (SuffixArray.PutBatch_writeBatch batch_deletions sa_bulk) = Returned writeBatch)
    by (eexists; vm_compute; reflexivity).
  destruct Hwb as [writeBatch Hwb]. exists writeBatch. split; [exact Hwb|].
  exact (PutBatch_puts batch_deletions sa_bulk writeBatch Hwb).
Defined.

Lemma PutBatch_without_entries_witness :
  exists writeBatch,
    fst (SuffixArray.PutBatch_writeBatch batch_deletions sa_bulk) = Returned writeBatch /\
    merge_keys writeBatch = [] /\ Forall is_put writeBatch.
Proof.
  assert (Hwb : exists writeBatch,
             fst (SuffixArray.PutBatch_writeBatch batch_deletions sa_bulk) = Returned writeBatch)
    by (eexists; vm_compute; reflexivity).
  destruct Hwb as [writeBatch Hwb]. exists writeBatch. split; [exact Hwb|].
  destruct (PutBatch_without_entries batch_deletions sa_bulk writeBatch eq_refl Hwb)
    as (Hmerges & Hputs & _).
  split; assumption.
Defined.

Lemma ForceCompaction_steady_state_witness :
  SuffixArray.openForBulkLoad sa0 = false /\
  fst (SuffixArray.ForceCompaction sa0) = Returned tt /\
  SuffixArray.storage (snd (SuffixArray.ForceCompaction sa0)) = SuffixArray.storage sa0.
Proof.
  split; [reflexivity|].
  destruct (ForceCompaction_steady_state sa0 eq_refl) as (Hr & _ & Hs).
  split; assumption.
Defined.

Lemma PutBatch_then_ForceCompaction_witness :
  fst (SuffixArray.PutBatch batch0 sa_bulk) = Returned tt /\
  SuffixArray.db (snd (SuffixArray.ForceCompaction (snd (SuffixArray.PutBatch batch0 sa_bulk)))) =
    db_CompactRange
      (snd (db_Write (SuffixArray.db (snd (SuffixArray.PutBatch batch0 sa_bulk)))
              [WPut SuffixArray.kStreamsKey (SerializeStreams (GetStreams batch0));
               WPut SuffixArray.kStorageManifestKey
                 (StorageManifest_Serialize
                    (storage_GetManifest
                       (SuffixArray.storage (snd (SuffixArray.PutBatch batch0 sa_bulk)))))])).
Proof.
  assert (Hput : fst (SuffixArray.PutBatch batch0 sa_bulk) = Returned tt)
    by (vm_compute; reflexivity).
  split; [exact Hput|].
  apply (PutBatch_then_ForceCompaction batch0 sa_bulk
           (SuffixArray.storage (snd (SuffixArray.PutBatch batch0 sa_bulk))));
    [reflexivity | exact Hput | reflexivity | vm_compute; reflexivity].
Defined.

Lemma AddToBatch_other_keys_witness :
  SuffixArray.AddPrefixesToBatch 3 1 [5; 9; 12] 0 ∅ !! "unrelated" = None /\
  SuffixArray.AddTargetCountsToBatch 3 [20; 21] ∅ !! "unrelated" = None.
Proof.
  destruct (AddToBatch_other_keys 3 1 [5; 9; 12] [20; 21] 0 ∅ ∅ "unrelated") as [Hs Ht];
    [intros start length _; discriminate | intros start length _; discriminate |].
  rewrite Hs, Ht, !lookup_empty. split; reflexivity.
Defined.

Lemma AddTargetCountsToBatch_exact_witness :
  default 0 (SuffixArray.AddTargetCountsToBatch 3 [7; 8; 7; 8] ∅ !! MakeCountKey 3 [7; 8] 0 2) = 2.
Proof.
  rewrite (AddTargetCountsToBatch_exact 3 [7; 8; 7; 8] ∅ (MakeCountKey 3 [7; 8] 0 2)).
  - rewrite lookup_empty. vm_compute. reflexivity.
  - rewrite lookup_empty. simpl. unfold int64_min. lia.
  - rewrite lookup_empty. simpl. unfold int64_max. lia.
Defined.

Lemma CountOccurrences_value_witness :
  fst (SuffixArray.CountOccurrences true [5; 9] (snd (SuffixArray.PutBatch batch0 sa0))) =
    Returned 2 /\
  fst (SuffixArray.CountOccurrences false [5; 9] (snd (SuffixArray.PutBatch batch0 sa0))) =
    Returned 1.
Proof.
  destruct (CountOccurrences_value (snd (SuffixArray.PutBatch batch0 sa0)) [5; 9])
    as [Hs Ht].
  - vm_compute. repeat constructor.
  - vm_compute. repeat (apply List.Forall_cons; [discriminate|]). apply List.Forall_nil.
  - vm_compute. discriminate.
  - apply sample_count_range.
  - split; [rewrite Hs | rewrite Ht]; vm_compute; reflexivity.
Defined.

Lemma merge_grouping_is_exact_witness :
  merge_all (MakePrefixKey 3 1 [5; 9] 0 2)
    (Merges (Merges (Operand fragmentA) (Operand fragmentB)) (Operand fragmentC)) =
  merge_all (MakePrefixKey 3 1 [5; 9] 0 2)
    (Merges (Operand fragmentA) (Merges (Operand fragmentB) (Operand fragmentC))).
Proof.
  apply (merge_grouping_is_exact (MakePrefixKey 3 1 [5; 9] 0 2)
           (Merges (Merges (Operand fragmentA) (Operand fragmentB)) (Operand fragmentC))
           (Merges (Operand fragmentA) (Merges (Operand fragmentB) (Operand fragmentC))));
    reflexivity.
Defined.

Lemma merge_counts_any_order_witness :
  merge_all (MakeCountKey 3 [7; 8] 0 2)
    (Merges (Operand (SerializeCount 4))
            (Merges (Merges (Operand (SerializeCount 3)) (Operand (SerializeCount 2)))
                    (Operand (SerializeCount 1)))) =
  merge_all (MakeCountKey 3 [7; 8] 0 2)
    (Merges (Merges (Operand (SerializeCount 1)) (Operand (SerializeCount 2)))
            (Merges (Operand (SerializeCount 3)) (Operand (SerializeCount 4)))).
Proof.
  assert (Hi : forall z, 0 <= z <= 10 -> in_int64 z)
    by (unfold in_int64, int64_min, int64_max; lia).
  apply (merge_counts_any_order (MakeCountKey 3 [7; 8] 0 2)
           (Merges (Merges (Operand (SerializeCount 1)) (Operand (SerializeCount 2)))
                   (Merges (Operand (SerializeCount 3)) (Operand (SerializeCount 4))))
           (Merges (Operand (SerializeCount 4))
                   (Merges (Merges (Operand (SerializeCount 3)) (Operand (SerializeCount 2)))
                           (Operand (SerializeCount 1))))
           [1; 2; 3; 4] [4; 3; 2; 1]).
  - exact sample_tags_differ.
  - reflexivity.
  - exact sample_count_roundtrip.
  - reflexivity.
  - reflexivity.
  - repeat (apply List.Forall_cons; [apply Hi; lia|]). apply List.Forall_nil.
  - change [4; 3; 2; 1] with (rev [1; 2; 3; 4]). apply Permutation_rev.
Defined.

Lemma Merge_appends_postings_witness :
  exists new_value,
    MergePositionOperator.Merge (MakePrefixKey 3 1 [5; 9] 0 2) (Some fragmentA) fragmentB =
      Merged new_value /\
    PostingList.Deserialize new_value [] =
      PostingList.Deserialize fragmentA [] ++ PostingList.Deserialize fragmentB [].
Proof.
  destruct (Merge_appends_postings (MakePrefixKey 3 1 [5; 9] 0 2) fragmentA fragmentB)
    as (new_value & Hmerge & Hdecode & _).
  - simpl. lia.
  - reflexivity.
  - reflexivity.
  - exists new_value. split; assumption.
Defined.

Lemma Next_after_the_end_witness :
  IndexIterator.Next
    (snd (IndexIterator.Next
            ({| IndexIterator.prefixLength := 3; IndexIterator.it := ItEnd OK |}, entry0))) =
  (Returned false,
   snd (IndexIterator.Next
          ({| IndexIterator.prefixLength := 3; IndexIterator.it := ItEnd OK |}, entry0))).
Proof.
  apply (Next_after_the_end
           {| IndexIterator.prefixLength := 3; IndexIterator.it := ItEnd OK |} entry0).
  reflexivity.
Defined.

Lemma iterate_reports_recognized_records_witness :
  FullScan.scan_ok
    (db_NewIterator_SeekToFirst (SuffixArray.db (snd (SuffixArray.PutBatch batch0 sa0)))) = true /\
  (List.length
     (FullScan.reported (SuffixArray.prefixLength (snd (SuffixArray.PutBatch batch0 sa0)))
        (db_NewIterator_SeekToFirst (SuffixArray.db (snd (SuffixArray.PutBatch batch0 sa0))))
        entry0) <=
   FullScan.scan_length
     (db_NewIterator_SeekToFirst (SuffixArray.db (snd (SuffixArray.PutBatch batch0 sa0)))))%nat.
Proof.
  assert (Hok : FullScan.scan_ok
                  (db_NewIterator_SeekToFirst
                     (SuffixArray.db (snd (SuffixArray.PutBatch batch0 sa0)))) = true)
    by (vm_compute; reflexivity).
  split; [exact Hok|].
  exact (proj2 (iterate_reports_recognized_records
                  (snd (SuffixArray.PutBatch batch0 sa0)) entry0 Hok)).
Defined.

Lemma PutBatch_merges_have_occurrences_witness :
  exists writeBatch,
    fst (SuffixArray.PutBatch_writeBatch batch0 sa0) = Returned writeBatch /\
    forall key value,
      In (WMerge key value) writeBatch ->
      (value = PostingList.Serialize
                 (batch_postings 3 (data batch0)
                    (appended_offsets (SuffixArray.storage sa0) (data batch0)) key) /\
       batch_postings 3 (data batch0)
         (appended_offsets (SuffixArray.storage sa0) (data batch0)) key <> []) \/
      (value = SerializeCount (incremented (batch_occurrences 3 (data batch0) key) 0) /\
       (0 < batch_occurrences 3 (data batch0) key)%nat).
Proof.
  assert (Hwb : exists writeBatch,
             fst (SuffixArray.PutBatch_writeBatch batch0 sa0) = Returned writeBatch)
    by (eexists; vm_compute; reflexivity).
  destruct Hwb as [writeBatch Hwb]. exists writeBatch. split; [exact Hwb|].
  exact (PutBatch_merges_have_occurrences batch0 sa0 writeBatch Hwb).
Defined.

Lemma drain_throws_first_fault_witness :
  FullScan.drain 4
    ({| IndexIterator.prefixLength := 3; IndexIterator.it := scan3_fault |}, entry0) =
  Some (Thrown (index_exception "IO error")).
Proof.
  apply (drain_throws_first_fault 3 scan3_fault IOError); [reflexivity | simpl; lia].
Defined.

Lemma new_index_open_error_witness :
  SuffixArray.new "/broken" 3 0 10 false = Thrown (index_exception "IO error").
Proof.
  apply (@new_index_open_error codec engine "/broken" 3%nat 0 10%nat false); reflexivity.
Defined.
End MoreSampleRuns.

Section FaultyRuns.

Lemma PutBatch_storage_exception_skips_commit_witness :
  fst (@SuffixArray.PutBatch Sample.codec Faulty.engine Faulty.batch_refused Faulty.sa_bulk) =
    Thrown (storage_exception "Domain 0 is reserved") /\
  @SuffixArray.db Faulty.engine
    (snd (@SuffixArray.PutBatch Sample.codec Faulty.engine Faulty.batch_refused
            Faulty.sa_bulk)) =
  @SuffixArray.db Faulty.engine Faulty.sa_bulk.
Proof.
  apply (@PutBatch_storage_exception_skips_commit Sample.codec Faulty.engine
           Faulty.batch_refused Faulty.sa_bulk (storage_exception "Domain 0 is reserved")).
  vm_compute. reflexivity.
Defined.

Lemma PutBatch_commit_failure_witness :
  fst (@SuffixArray.PutBatch Sample.codec Faulty.engine Sample.batch0 Faulty.sa_bulk) =
  Thrown (index_exception "Unable to write to index: IO error").
Proof.
  assert (Hwb : exists writeBatch,
             fst (@SuffixArray.PutBatch_writeBatch Sample.codec Faulty.engine
                    Sample.batch0 Faulty.sa_bulk) = Returned writeBatch)
    by (eexists; vm_compute; reflexivity).
  destruct Hwb as [writeBatch Hwb].
  exact (proj1 (@PutBatch_commit_failure Sample.codec Faulty.engine
                  Sample.batch0 Faulty.sa_bulk writeBatch Hwb eq_refl)).
Defined.

Lemma ForceCompaction_commit_failure_witness :
  fst (@SuffixArray.ForceCompaction Sample.codec Faulty.engine Faulty.sa_bulk) =
  Thrown (index_exception "Unable to write to index: IO error").
Proof.
  exact (proj1 (@ForceCompaction_commit_failure Sample.codec Faulty.engine
                  Faulty.sa_bulk [] eq_refl eq_refl eq_refl)).
Defined.

Lemma ForceCompaction_flush_exception_witness :
  fst (@SuffixArray.ForceCompaction Sample.codec Faulty.engine_no_flush Faulty.sa_no_flush) =
    Terminated (storage_exception "Unable to flush") /\
  @SuffixArray.db Faulty.engine_no_flush
    (snd (@SuffixArray.ForceCompaction Sample.codec Faulty.engine_no_flush
            Faulty.sa_no_flush)) =
  @SuffixArray.db Faulty.engine_no_flush Faulty.sa_no_flush.
Proof.
  pose proof (@ForceCompaction_flush_exception Sample.codec Faulty.engine_no_flush
                Faulty.sa_no_flush (storage_exception "Unable to flush") []
                eq_refl eq_refl) as (Hout & _ & Hdb).
  split; [exact Hout | exact Hdb].
Defined.

Lemma new_storage_open_error_witness :
  @SuffixArray.new Sample.codec Faulty.engine "/model" 3 0 10 true =
  Thrown (storage_exception "Unable to open /model/storage").
Proof.
  exact (@new_storage_open_error Sample.codec Faulty.engine "/model" 3%nat 0 10%nat true
           (storage_exception "Unable to open /model/storage") eq_refl eq_refl eq_refl).
Defined.
End FaultyRuns.
